(** * cpix_gen: the CPIX generator script of pycpix (example/cpix_gen.py)

    A shallow embedding of the script and the properties of it that its
    specification states.

    Conventions of the embedding.
    - A Python [str] is a [string]; each [ascii] stands for one code point
      below 256.  A Python [bytes] is a [list Byte.byte].
    - A [uuid.UUID] is the 128-bit integer it compares by, a [Z].
    - Python exceptions are values of [exn]; only the class is kept for the
      built-in ones, which is what an [except] clause dispatches on, and the
      message for those the script raises itself.
    - What the script calls but does not define is either modelled next to
      its doc comment (the classes of the [cpix] package, as plain data) or
      a field of the class [Externals] (the [uuid.UUID] parser,
      [base64.b64decode], the PSSH generators, the XML printer), so that the
      results hold whatever these functions compute. *)

From Stdlib Require Import ZArith String Ascii List Bool Lia.
From Stdlib Require Import Strings.Byte.
From stdpp Require Import base decidable option list gmap strings.
Import ListNotations.

Local Open Scope string_scope.
Local Open Scope list_scope.

(** ** Exceptions and results *)

Inductive exn : Type :=
| Exception_ (msg : string)   (* raise Exception(msg), as the script does *)
| ValueError                   (* built-in ValueError *)
| BinasciiError                (* binascii.Error, a subclass of ValueError *)
| KeyError (key : string)      (* a missing dict key *)
| TypeError.                   (* built-in TypeError *)

(** The outcome of pure code: a value or a raised exception. *)
Inductive result (A : Type) : Type :=
| Ok (a : A)
| Raise (e : exn).
Arguments Ok {A} a.
Arguments Raise {A} e.

Definition rbind {A B : Type} (r : result A) (f : A -> result B) : result B :=
  match r with
  | Ok a => f a
  | Raise e => Raise e
  end.

Definition is_Ok {A : Type} (r : result A) : Prop :=
  match r with
  | Ok _ => True
  | Raise _ => False
  end.

Declare Scope result_scope.
Delimit Scope result_scope with result.
Notation "x <~ c ; k" := (rbind c (fun x => k))
  (at level 100, c at next level, right associativity) : result_scope.

(** ** Built-ins of Python the script relies on *)

Module Py.

(** [s.split(sep)] for a one-character separator: the pieces between the
    occurrences of [sep], always at least one piece. *)
Fixpoint split (sep : ascii) (s : string) : list string :=
  match s with
  | EmptyString => [EmptyString]
  | String c s' =>
      if Ascii.eqb c sep then EmptyString :: split sep s'
      else match split sep s' with
           | p :: ps => String c p :: ps
           | [] => [String c EmptyString]
           end
  end.

(** [a, b = l]: unpacking into two names raises ValueError unless [l] has
    exactly two elements; [None] stands for that ValueError. *)
Definition unpack2 {A : Type} (l : list A) : option (A * A) :=
  match l with
  | [a; b] => Some (a, b)
  | _ => None
  end.

(** Number of occurrences of a character. *)
Fixpoint count (c : ascii) (s : string) : nat :=
  match s with
  | EmptyString => 0
  | String c' s' => (if Ascii.eqb c' c then 1 else 0) + count c s'
  end.

Definition bytes : Type := list Byte.byte.

Definition chars (s : string) : list ascii := list_ascii_of_string s.

Definition is_ascii (c : ascii) : bool := (N_of_ascii c <? 128)%N.

(** The alphabet [0-9A-F] of [base64.b16decode] without case folding. *)
Definition b16_value (c : ascii) : option N :=
  let n := N_of_ascii c in
  if ((48 <=? n) && (n <=? 57))%N then Some (n - 48)%N
  else if ((65 <=? n) && (n <=? 70))%N then Some (n - 55)%N
  else None.

Definition is_b16 (c : ascii) : bool :=
  match b16_value c with Some _ => true | None => false end.

Definition byte_of_N (n : N) : Byte.byte :=
  match Byte.of_N n with Some b => b | None => Byte.x00 end.

(** [binascii.unhexlify] on a string already known to be over [0-9A-F];
    a trailing odd digit is reported by [None]. *)
Fixpoint unhexlify (l : list ascii) : option bytes :=
  match l with
  | [] => Some []
  | h :: l :: rest =>
      match b16_value h, b16_value l, unhexlify rest with
      | Some x, Some y, Some bs => Some (byte_of_N (16 * x + y) :: bs)
      | _, _, _ => None
      end
  | [_] => None
  end.

(** [base64.b16decode(s)] on a [str], [casefold=False]: the string is
    first encoded as ASCII (ValueError when it is not ASCII), then searched
    for a character outside [0-9A-F] (binascii.Error), then decoded two
    digits to a byte (binascii.Error on an odd length). *)
Definition b16decode (s : string) : result bytes :=
  if negb (forallb is_ascii (chars s)) then Raise ValueError
  else if negb (forallb is_b16 (chars s)) then Raise BinasciiError
  else match unhexlify (chars s) with
       | Some bs => Ok bs
       | None => Raise BinasciiError
       end.

Definition hex_digit (n : N) : Byte.byte :=
  byte_of_N (if (n <? 10)%N then 48 + n else 55 + n)%N.

(** [base64.b16encode]: two upper-case digits per byte. *)
Definition b16encode (bs : bytes) : bytes :=
  flat_map (fun b => let n := Byte.to_N b in
                     [hex_digit (n / 16); hex_digit (n mod 16)]) bs.

Definition b64_alphabet : list ascii :=
  chars "ABCDEFGHIJKLMNOPQRSTUVWXYZabcdefghijklmnopqrstuvwxyz0123456789+/".

Definition b64_digit (n : N) : Byte.byte :=
  byte_of_ascii (nth (N.to_nat n) b64_alphabet "="%char).

Definition b64_pad : Byte.byte := byte_of_ascii "="%char.

(** [base64.b64encode]: three bytes give four digits; a last group of one
    or two bytes is padded with [=]. *)
Fixpoint b64encode (bs : bytes) : bytes :=
  match bs with
  | [] => []
  | [a] =>
      let x := Byte.to_N a in
      [b64_digit (x / 4); b64_digit ((x mod 4) * 16); b64_pad; b64_pad]
  | [a; b] =>
      let x := Byte.to_N a in
      let y := Byte.to_N b in
      [b64_digit (x / 4); b64_digit ((x mod 4) * 16 + y / 16);
       b64_digit ((y mod 16) * 4); b64_pad]
  | a :: b :: c :: rest =>
      let x := Byte.to_N a in
      let y := Byte.to_N b in
      let z := Byte.to_N c in
      b64_digit (x / 4) :: b64_digit ((x mod 4) * 16 + y / 16)
      :: b64_digit ((y mod 16) * 4 + z / 64) :: b64_digit (z mod 64)
      :: b64encode rest
  end.

(** The level names [logging] knows; [setLevel] raises ValueError on any
    other string. *)
Definition level_names : list string :=
  ["CRITICAL"; "FATAL"; "ERROR"; "WARN"; "WARNING"; "INFO"; "DEBUG";
   "NOTSET"].

Definition checkLevel (level : string) : bool :=
  bool_decide (level ∈ level_names).

Definition bytes_of_string (s : string) : bytes :=
  map byte_of_ascii (chars s).

Definition string_of_bytes (bs : bytes) : string :=
  string_of_list_ascii (map ascii_of_byte bs).

End Py.

(** ** The data model of the [cpix] package *)

(** Modelled from the spec: [cpix.ContentKey], whose class is in the cpix
    package and not in the script.  A key id, canonically a UUID, and the
    content key as the script hands it over (base64 text). *)
Record ContentKey : Type := mkContentKey {
  kid : Z;
  cek : Py.bytes
}.

(** Modelled from the spec: the two well-known DRM system ids,
    [cpix.WIDEVINE_SYSTEM_ID] and [cpix.PLAYREADY_SYSTEM_ID], constants of the
    cpix package; only that they are two distinct constants is kept. *)
Inductive system_id : Type :=
| WIDEVINE_SYSTEM_ID
| PLAYREADY_SYSTEM_ID.

(** Modelled from the spec: [cpix.DRMSystem], one entry per key and DRM
    system: the key id, the system id and the PSSH payload. *)
Record DRMSystem : Type := mkDRMSystem {
  drm_kid : Z;
  drm_system_id : system_id;
  drm_pssh : Py.bytes
}.

(** Modelled from the spec: the typed predicates of a usage rule. *)
Inductive rule_filter : Type :=
| AudioFilter
| VideoFilter (minPixels maxPixels : option Z)
| BitrateFilter (minBitrate maxBitrate : option Z).

(** Modelled from the spec: a usage rule of the cpix package, a key id and
    its filters. *)
Record UsageRule : Type := mkUsageRule {
  rule_kid : Z;
  rule_filters : list rule_filter
}.

(** Modelled from the spec: the preset rule classes of the cpix package,
    with the filters of the preset table (the script's own docstring gives
    the same pixel bounds). *)
Definition AudioUsageRule (k : Z) : UsageRule :=
  mkUsageRule k [AudioFilter].
Definition VideoUsageRule (k : Z) : UsageRule :=
  mkUsageRule k [VideoFilter None None].
Definition SDVideoUsageRule (k : Z) : UsageRule :=
  mkUsageRule k [VideoFilter None (Some 442368%Z)].
Definition HDVideoUsageRule (k : Z) : UsageRule :=
  mkUsageRule k [VideoFilter (Some 442369%Z) (Some 2073600%Z)].
Definition UHD1VideoUsageRule (k : Z) : UsageRule :=
  mkUsageRule k [VideoFilter (Some 2073601%Z) (Some 8847360%Z)].
Definition UHD2VideoUsageRule (k : Z) : UsageRule :=
  mkUsageRule k [VideoFilter (Some 8847361%Z) None].

(** The constant of lines 79-80, which [main] does not use; its last
    entry is spelled without the underscore. *)
Definition PRESET_USAGE_RULES : list string :=
  ["audio"; "video"; "video_sd"; "video_hd"; "video_uhd1"; "videouhd2"].

(** The preset names as the specification lists them. *)
Definition spec_preset_names : list string :=
  ["audio"; "video"; "video_sd"; "video_hd"; "video_uhd1"; "video_uhd2"].

(** The preset table as the specification gives it: the filters of each
    preset name, and [None] for any other name. *)
Definition spec_preset_filters (name : string) : option (list rule_filter) :=
  if decide (name = "audio") then Some [AudioFilter]
  else if decide (name = "video") then Some [VideoFilter None None]
  else if decide (name = "video_sd")
  then Some [VideoFilter None (Some 442368%Z)]
  else if decide (name = "video_hd")
  then Some [VideoFilter (Some 442369%Z) (Some 2073600%Z)]
  else if decide (name = "video_uhd1")
  then Some [VideoFilter (Some 2073601%Z) (Some 8847360%Z)]
  else if decide (name = "video_uhd2")
  then Some [VideoFilter (Some 8847361%Z) None]
  else None.

(** Modelled from the spec: [cpix.CPIX], the root aggregate: the ordered
    keys, DRM entries and usage rules. *)
Record CPIX : Type := mkCPIX {
  content_keys : list ContentKey;
  drm_systems : list DRMSystem;
  usage_rules : list UsageRule
}.

(** ** What the script calls and does not define *)

Class Externals : Type := {
  (** [uuid.UUID(s)]; [None] is its ValueError. *)
  UUID : string -> option Z;
  (** [base64.b64decode]. *)
  b64decode : Py.bytes -> result Py.bytes;
  (** [widevine.generate_pssh(key_ids, provider, content_id, version)]. *)
  widevine_generate_pssh :
    list Z -> option string -> option string -> Z -> result Py.bytes;
  (** [playready.generate_pssh(keys, url, algorithm, version)], each key a
      pair of the key id and the hexadecimal content key. *)
  playready_generate_pssh :
    list (Z * Py.bytes) -> option string -> string -> Z -> result Py.bytes;
  (** [CPIX.pretty_print(xml_declaration=True, encoding="UTF-8")]. *)
  pretty_print : CPIX -> Py.bytes
}.

(** ** The command line, as argparse hands it to [main] *)

Record Args : Type := mkArgs {
  keys : list string;                              (* --key, append *)
  widevine : bool;                                 (* --widevine *)
  widevine_content_id : option string;
  widevine_provider : option string;
  widevine_pssh_version : Z;                       (* default 1 *)
  playready : bool;                                (* --playready *)
  playready_la_url : option string;
  playready_algorithm : string;                    (* AESCTR or AESCBC *)
  playready_pssh_version : Z;                      (* default 1 *)
  custom_usage_rules : option (list (string * string));  (* --usage_rule *)
  preset_usage_rules : option (list (string * string));
  output_filename : option string;                 (* -o *)
  stdout : bool;                                   (* --stdout *)
  log_level : string                               (* default WARN *)
}.

(** ** Effects of [main] *)

(** Calls into the PSSH generators, recorded in call order. *)
Inductive call : Type :=
| WidevineGenerate (key_ids : list Z) (provider content_id : option string)
    (version : Z)
| PlayreadyGenerate (keys : list (Z * Py.bytes)) (url : option string)
    (algorithm : string) (version : Z).

(** CPIX output: the document printed or written to a file. *)
Inductive out_event : Type :=
| Print (text : Py.bytes)
| WriteFile (name : string) (data : Py.bytes).

Record world : Type := mkWorld {
  calls : list call;
  output : list out_event
}.

(** The argument of [parser.error]: a string, or the exception object. *)
Inductive message : Type :=
| MsgStr (s : string)
| MsgExn (e : exn).

Inductive outcome (A : Type) : Type :=
| Ret (a : A)                 (* still running, with a value *)
| Raised (e : exn)            (* an exception nobody catches *)
| ParserError (m : message)   (* parser.error(m): message, exit status 2 *)
| Exit (code : Z).            (* exit(code) *)
Arguments Ret {A} a.
Arguments Raised {A} e.
Arguments ParserError {A} m.
Arguments Exit {A} code.

Definition M (A : Type) : Type := world -> outcome A * world.

Definition ret {A : Type} (a : A) : M A := fun w => (Ret a, w).

Definition bind {A B : Type} (c : M A) (k : A -> M B) : M B :=
  fun w =>
    match c w with
    | (Ret a, w') => k a w'
    | (Raised e, w') => (Raised e, w')
    | (ParserError m, w') => (ParserError m, w')
    | (Exit n, w') => (Exit n, w')
    end.

Definition raise {A : Type} (e : exn) : M A := fun w => (Raised e, w).
Definition parser_error {A : Type} (m : message) : M A :=
  fun w => (ParserError m, w).
(** [exit] does not return: its value is of the empty type. *)
Definition exit (code : Z) : M Empty_set := fun w => (Exit code, w).

Definition lift {A : Type} (r : result A) : M A :=
  match r with
  | Ok a => ret a
  | Raise e => raise e
  end.

Definition log_call (c : call) : M unit :=
  fun w => (Ret tt, mkWorld (calls w ++ [c]) (output w)).

Definition emit (o : out_event) : M unit :=
  fun w => (Ret tt, mkWorld (calls w) (output w ++ [o])).

Declare Scope M_scope.
Delimit Scope M_scope with M.
Notation "x <- c ;; k" := (bind c (fun x => k))
  (at level 100, c at next level, right associativity) : M_scope.
Notation "c ;; k" := (bind c (fun _ => k))
  (at level 100, right associativity) : M_scope.

(** A [for] loop that threads the loop-carried variables [s] and stops at
    the first iteration that raises or exits. *)
Fixpoint for_each {A S : Type} (body : S -> A -> M S) (l : list A) (s : S)
  : M S :=
  match l with
  | [] => ret s
  | x :: rest => bind (body s x) (for_each body rest)
  end.

(** A list comprehension whose element expression may raise. *)
Fixpoint comprehension {A B : Type} (f : A -> result B) (l : list A)
  : result (list B) :=
  match l with
  | [] => Ok []
  | x :: rest =>
      match f x with
      | Raise e => Raise e
      | Ok y =>
          match comprehension f rest with
          | Raise e => Raise e
          | Ok ys => Ok (y :: ys)
          end
      end
  end.

(** Truth value of an optional list, as in [if args.preset_usage_rules:]. *)
Definition truthy {A : Type} (o : option (list A)) : bool :=
  match o with
  | Some (_ :: _) => true
  | _ => false
  end.

Definition items {A : Type} (o : option (list A)) : list A :=
  match o with
  | Some l => l
  | None => []
  end.

(** A computation is quiet when it writes no CPIX output and does not call
    [exit]. *)
Definition quiet {A : Type} (c : M A) : Prop :=
  forall w, output (snd (c w)) = output w /\ forall n, fst (c w) <> Exit n.

(** ** The script *)

Section Script.

Context `{Externals}.

Local Open Scope result_scope.

(** Modelled from the spec: the constructor [cpix.ContentKey(kid=, cek=)]
    of the cpix package.  The key id is held as a UUID, which is what
    [main] compares it with, so a text that is no UUID raises ValueError;
    the content key is stored as given. *)
Definition new_ContentKey (kid_text : string) (cek_b64 : Py.bytes)
  : result ContentKey :=
  match UUID kid_text with
  | Some u => Ok (mkContentKey u cek_b64)
  | None => Raise ValueError
  end.

(** One iteration of the loop of [parse_keys] (lines 87-97): the key
    that is appended, or the exception that leaves the function. *)
Definition parse_key (key : string) : result ContentKey :=
  match Py.unpack2 (Py.split ":" key) with
  | None => Raise (Exception_ "key must be KEY_ID:CONTENT_KEY (missing :)")
  | Some (kid_text, cek_text) =>
      if negb (String.length kid_text =? 32)%nat
      then Raise (Exception_ "key ID must be 128-bit")
      else if negb (String.length cek_text =? 32)%nat
      then Raise (Exception_ "cek must be 128-bit")
      else
        raw <~ Py.b16decode cek_text;
        new_ContentKey kid_text (Py.b64encode raw)
  end.

(** [parse_keys] (lines 83-98), from the point where [parsed_keys] holds
    the keys appended so far. *)
Fixpoint parse_keys_from (ks : list string) (parsed_keys : list ContentKey)
  : result (list ContentKey) :=
  match ks with
  | [] => Ok parsed_keys
  | key :: rest =>
      k <~ parse_key key;
      parse_keys_from rest (parsed_keys ++ [k])
  end.

Definition parse_keys (ks : list string) : result (list ContentKey) :=
  parse_keys_from ks [].

Local Close Scope result_scope.
Local Open Scope M_scope.

(** Lines 221-229: [logger.setLevel] and [ch.setLevel] raise ValueError
    on a level name that [logging] does not know. *)
Definition set_log_level (level : string) : M unit :=
  if Py.checkLevel level then ret tt else raise ValueError.

(** Lines 232-234. *)
Definition check_required (a : Args) : M unit :=
  if playready a && bool_decide (playready_la_url a = None)
  then parser_error
         (MsgStr "When setting --playready must also set --playready.la_url")
  else ret tt.

(** Lines 237-240. *)
Definition keys_stage (a : Args) : M (list ContentKey) :=
  match parse_keys (keys a) with
  | Ok ks => ret ks
  | Raise e => parser_error (MsgExn e)
  end.

Definition call_widevine (key_ids : list Z) (provider content_id : option string)
    (version : Z) : M Py.bytes :=
  log_call (WidevineGenerate key_ids provider content_id version);;
  lift (widevine_generate_pssh key_ids provider content_id version).

Definition call_playready (ks : list (Z * Py.bytes)) (url : option string)
    (algorithm : string) (version : Z) : M Py.bytes :=
  log_call (PlayreadyGenerate ks url algorithm version);;
  lift (playready_generate_pssh ks url algorithm version).

(** Lines 247-262. *)
Definition widevine_stage (a : Args) (ks : list ContentKey)
    (drm : list DRMSystem) : M (list DRMSystem) :=
  if widevine a then
    pssh <- call_widevine (map kid ks) (widevine_provider a)
              (widevine_content_id a) (widevine_pssh_version a);;
    for_each
      (fun drm key =>
         ret (drm ++ [mkDRMSystem (kid key) WIDEVINE_SYSTEM_ID
                        (Py.b64encode pssh)]))
      ks drm
  else ret drm.

(** The element of the list comprehension of lines 266-267. *)
Definition playready_key (key : ContentKey) : result (Z * Py.bytes) :=
  match b64decode (cek key) with
  | Ok raw => Ok (kid key, Py.b16encode raw)
  | Raise e => Raise e
  end.

(** Lines 264-280. *)
Definition playready_stage (a : Args) (ks : list ContentKey)
    (drm : list DRMSystem) : M (list DRMSystem) :=
  if playready a then
    pks <- lift (comprehension playready_key ks);;
    pssh <- call_playready pks (playready_la_url a)
              (playready_algorithm a) (playready_pssh_version a);;
    for_each
      (fun drm key =>
         ret (drm ++ [mkDRMSystem (kid key) PLAYREADY_SYSTEM_ID
                        (Py.b64encode pssh)]))
      ks drm
  else ret drm.

(** Lines 245-280: the DRM entries, from an empty list, Widevine's first
    and PlayReady's after them. *)
Definition drm_stage (a : Args) (ks : list ContentKey)
  : M (list DRMSystem) :=
  drm <- widevine_stage a ks [];;
  playready_stage a ks drm.

(** Lines 288-293 (and 314-319): the rule's key id, or the parser error
    with the given message. *)
Definition rule_kid_of (ks : list ContentKey) (kid_text : string)
    (msg : string) : M Z :=
  match UUID kid_text with
  | None => parser_error (MsgStr msg)
  | Some u =>
      if negb (bool_decide (u ∈ map kid ks))
      then parser_error (MsgStr msg)
      else ret u
  end.

(** Lines 288-309: one preset rule. *)
Definition preset_rule (ks : list ContentKey) (rules : list UsageRule)
    (rule : string * string) : M (list UsageRule) :=
  u <- rule_kid_of ks (fst rule) "Invalid key ID in preset usage rule.";;
  if decide (snd rule = "audio") then ret (rules ++ [AudioUsageRule u])
  else if decide (snd rule = "video") then ret (rules ++ [VideoUsageRule u])
  else if decide (snd rule = "video_sd")
  then ret (rules ++ [SDVideoUsageRule u])
  else if decide (snd rule = "video_hd")
  then ret (rules ++ [HDVideoUsageRule u])
  else if decide (snd rule = "video_uhd1")
  then ret (rules ++ [UHD1VideoUsageRule u])
  else if decide (snd rule = "video_uhd2")
  then ret (rules ++ [UHD2VideoUsageRule u])
  else parser_error
         (MsgStr ("Invalid preset rule. Allowed values are: audio, "
                  ++ "video, video_sd, video_hd, video_uhd1, video_uhd2")).

(** Lines 286-309. *)
Definition preset_stage (a : Args) (ks : list ContentKey)
    (rules : list UsageRule) : M (list UsageRule) :=
  if truthy (preset_usage_rules a)
  then for_each (preset_rule ks) (items (preset_usage_rules a)) rules
  else ret rules.

(** [d[k]] as an expression: KeyError when the key is missing. *)
Definition getitem {V : Type} (d : gmap string V) (k : string) : result V :=
  match d !! k with
  | Some v => Ok v
  | None => Raise (KeyError k)
  end.

(** Lines 324-328: one filter of a custom rule.  The two unpackings raise
    ValueError; the dictionary is looked up and never written. *)
Definition custom_filter (parsed_filters : gmap string rule_filter)
    (_filter : string) : result (gmap string rule_filter) :=
  match Py.unpack2 (Py.split ":" _filter) with
  | None => Raise ValueError
  | Some (filter_type, filter_param) =>
      match Py.unpack2 (Py.split "=" filter_param) with
      | None => Raise ValueError
      | Some (filter_param_type, filter_param_value) =>
          if decide (filter_type = "audio") then
            match getitem parsed_filters "audio" with
            | Ok _ => Ok parsed_filters
            | Raise e => Raise e
            end
          else Ok parsed_filters
      end
  end.

(** Lines 323-328: the loop over the filters of one rule. *)
Fixpoint custom_filters (fs : list string)
    (parsed_filters : gmap string rule_filter)
  : result (gmap string rule_filter) :=
  match fs with
  | [] => Ok parsed_filters
  | f :: rest =>
      match custom_filter parsed_filters f with
      | Ok d => custom_filters rest d
      | Raise e => Raise e
      end
  end.

(** Lines 314-328: one custom rule; it yields the dictionary the loop
    ends with, and [usage_rules] is not touched. *)
Definition custom_rule (ks : list ContentKey) (rule : string * string)
  : M (gmap string rule_filter) :=
  u <- rule_kid_of ks (fst rule) "Invalid key ID in custom usage rule.";;
  lift (custom_filters (Py.split "," (snd rule)) ∅).

(** Lines 312-328. *)
Definition custom_stage (a : Args) (ks : list ContentKey) : M unit :=
  if truthy (custom_usage_rules a)
  then for_each (fun _ rule => custom_rule ks rule;; ret tt)
         (items (custom_usage_rules a)) tt
  else ret tt.

(** [main] up to line 330: the three lists the document would be made
    of. *)
Definition main_body (a : Args)
  : M (list ContentKey * list DRMSystem * list UsageRule) :=
  set_log_level (log_level a);;
  check_required a;;
  ks <- keys_stage a;;
  drm <- drm_stage a ks;;
  rules <- preset_stage a ks [];;
  custom_stage a ks;;
  ret (ks, drm, rules).

(** Lines 333-345, the code after [exit(0)]. *)
Definition write_document (a : Args)
    (st : list ContentKey * list DRMSystem * list UsageRule) : M unit :=
  let '(ks, drm, rules) := st in
  let cpix_doc := mkCPIX ks drm rules in
  let cpix_xml := pretty_print cpix_doc in
  if stdout a then emit (Print cpix_xml)
  else match output_filename a with
       | Some name => emit (WriteFile name cpix_xml)
       | None => raise TypeError
       end.

(** [main] (lines 101-345). *)
Definition main (a : Args) : M unit :=
  st <- main_body a;;
  exit 0;;
  write_document a st.

(** The entries one DRM system contributes: one per key, in key order,
    each with the base64 text of the same payload. *)
Definition entries (sid : system_id) (pssh : Py.bytes)
    (ks : list ContentKey) : list DRMSystem :=
  map (fun key => mkDRMSystem (kid key) sid (Py.b64encode pssh)) ks.

(** The key id text of a usage rule names a key of the key list. *)
Definition known_kid (ks : list ContentKey) (kid_text : string) : Prop :=
  exists u, UUID kid_text = Some u /\ u ∈ map kid ks.

(** The script's form of the length error of the specification: one
    message for the key id and one for the content key. *)
Definition InvalidKeyLength (e : exn) : Prop :=
  e = Exception_ "key ID must be 128-bit"
  \/ e = Exception_ "cek must be 128-bit".

End Script.

(** ** Notions used to describe what the script accepts *)

(** A filter text the custom-rule loop gets through: a type before the one
    colon, a parameter after it with exactly one equals sign, and a type
    that is not [audio]. *)
Definition passes_filter (f : string) : Prop :=
  exists t p : string,
    f = (t ++ ":" ++ p)%string
    /\ Py.count ":" t = 0 /\ Py.count ":" p = 0
    /\ Py.count "=" p = 1
    /\ t <> "audio".

(** Every parser error a computation can end in carries a message that
    satisfies [P]. *)
Definition parser_errors {A : Type} (P : message -> Prop) (c : M A) : Prop :=
  forall w m w', c w = (ParserError m, w') -> P m.

(** A computation is silent when it leaves the world as it found it,
    however it ends. *)
Definition silent {A : Type} (c : M A) : Prop :=
  forall w, snd (c w) = w.

Section Accepted.

Context `{Externals}.

(** The usage rule a preset option stands for: the key id of its first
    word, which a key of the key list has, and the filters of the preset
    named by its second word. *)
Definition preset_of (ks : list ContentKey) (rule : string * string)
    (r : UsageRule) : Prop :=
  UUID (fst rule) = Some (rule_kid r)
  /\ rule_kid r ∈ map kid ks
  /\ spec_preset_filters (snd rule) = Some (rule_filters r).

(** The key a key spec stands for: 32 characters of key id, a colon, 32
    characters of content key that decode as upper-case hexadecimal. *)
Definition key_of (key : string) (c : ContentKey) : Prop :=
  exists (kt ct : string) (raw : Py.bytes),
    key = (kt ++ ":" ++ ct)%string
    /\ Py.count ":" kt = 0
    /\ String.length kt = 32 /\ String.length ct = 32
    /\ Py.b16decode ct = Ok raw
    /\ UUID kt = Some (kid c)
    /\ cek c = Py.b64encode raw.

(** A custom rule the loop of lines 313-328 gets through. *)
Definition passes_rule (ks : list ContentKey) (rule : string * string)
  : Prop :=
  known_kid ks (fst rule)
  /\ Forall passes_filter (Py.split "," (snd rule)).

(** The messages of the parser errors of [main], for a command line. *)
Definition main_message (a : Args) (m : message) : Prop :=
  m = MsgStr "When setting --playready must also set --playready.la_url"
  \/ (exists e, m = MsgExn e /\ parse_keys (keys a) = Raise e)
  \/ m = MsgStr "Invalid key ID in preset usage rule."
  \/ m = MsgStr "Invalid preset rule. Allowed values are: audio, video, video_sd, video_hd, video_uhd1, video_uhd2"
  \/ m = MsgStr "Invalid key ID in custom usage rule.".

(** The stages after the keys, from the state the DRM stage starts in. *)
Definition after_keys (a : Args) (ks : list ContentKey)
  : M (list ContentKey * list DRMSystem * list UsageRule) :=
  bind (drm_stage a ks) (fun drm =>
  bind (preset_stage a ks []) (fun rules =>
  bind (custom_stage a ks) (fun _ => ret (ks, drm, rules)))).

(** The list of generator calls a run may make: nothing or the one Widevine
    call on the key ids of the parsed keys, then nothing or one PlayReady
    call; a call only for a system that is enabled. *)
Definition generator_calls (a : Args) (l : list call) : Prop :=
  exists lw lp,
    l = lw ++ lp
    /\ (lw = []
        \/ exists ks,
            widevine a = true /\ parse_keys (keys a) = Ok ks
            /\ lw = [WidevineGenerate (map kid ks) (widevine_provider a)
                       (widevine_content_id a) (widevine_pssh_version a)])
    /\ (lp = []
        \/ exists ks pks,
            playready a = true /\ parse_keys (keys a) = Ok ks
            /\ comprehension playready_key ks = Ok pks
            /\ lp = [PlayreadyGenerate pks (playready_la_url a)
                       (playready_algorithm a) (playready_pssh_version a)]).

End Accepted.

(** ** A concrete environment

    The theorems below hold for every [Externals].  To run the script on
    concrete command lines one instance is fixed here: [uuid.UUID] on the
    plain spelling of a UUID, [base64.b64decode] on canonical base64 text,
    and stand-ins for the PSSH generators and the XML printer, whose real
    output is the business of the cpix package. *)

Module Sample.

Definition hex_value (c : ascii) : option Z :=
  let n := Z.of_N (N_of_ascii c) in
  if ((48 <=? n) && (n <=? 57))%Z then Some (n - 48)%Z
  else if ((65 <=? n) && (n <=? 70))%Z then Some (n - 55)%Z
  else if ((97 <=? n) && (n <=? 102))%Z then Some (n - 87)%Z
  else None.

Fixpoint hex_int (l : list ascii) (acc : Z) : option Z :=
  match l with
  | [] => Some acc
  | c :: rest =>
      match hex_value c with
      | Some d => hex_int rest (16 * acc + d)%Z
      | None => None
      end
  end.

(** [uuid.UUID(s)] where [s] is 32 hexadecimal digits, in either case.
    The other spellings [uuid.UUID] accepts (hyphens, braces, a [urn:]
    prefix) are left out of the sample: it answers [None] on them. *)
Definition UUID (s : string) : option Z :=
  if (String.length s =? 32)%nat then hex_int (Py.chars s) 0%Z else None.

Definition b64_value (b : Byte.byte) : option N :=
  let n := Byte.to_N b in
  if ((65 <=? n) && (n <=? 90))%N then Some (n - 65)%N
  else if ((97 <=? n) && (n <=? 122))%N then Some (n - 71)%N
  else if ((48 <=? n) && (n <=? 57))%N then Some (n + 4)%N
  else if (n =? 43)%N then Some 62%N
  else if (n =? 47)%N then Some 63%N
  else None.

Definition is_pad (b : Byte.byte) : bool := (Byte.to_N b =? 61)%N.

(** [base64.b64decode] on canonical text (groups of four digits, padding
    only in the last group); anything else is answered with
    binascii.Error, which is stricter than the lenient standard decoder. *)
Fixpoint b64decode (bs : Py.bytes) : result Py.bytes :=
  match bs with
  | [] => Ok []
  | a :: b :: c :: d :: rest =>
      match b64_value a, b64_value b, b64_value c, b64_value d with
      | Some x, Some y, Some z, Some t =>
          match b64decode rest with
          | Ok out =>
              Ok (Py.byte_of_N (x * 4 + y / 16)
                  :: Py.byte_of_N ((y mod 16) * 16 + z / 4)
                  :: Py.byte_of_N ((z mod 4) * 64 + t) :: out)
          | Raise e => Raise e
          end
      | Some x, Some y, Some z, None =>
          if is_pad d && bool_decide (rest = [])
          then Ok [Py.byte_of_N (x * 4 + y / 16);
                   Py.byte_of_N ((y mod 16) * 16 + z / 4)]
          else Raise BinasciiError
      | Some x, Some y, None, None =>
          if is_pad c && is_pad d && bool_decide (rest = [])
          then Ok [Py.byte_of_N (x * 4 + y / 16)]
          else Raise BinasciiError
      | _, _, _, _ => Raise BinasciiError
      end
  | _ => Raise BinasciiError
  end.

(** Stand-in payloads. *)
Definition widevine_generate_pssh (key_ids : list Z)
    (provider content_id : option string) (version : Z)
  : result Py.bytes :=
  Ok (Py.bytes_of_string "widevine pssh").

Definition playready_generate_pssh (ks : list (Z * Py.bytes))
    (url : option string) (algorithm : string) (version : Z)
  : result Py.bytes :=
  Ok (Py.bytes_of_string "playready pssh").

Definition pretty_print (doc : CPIX) : Py.bytes :=
  Py.bytes_of_string "<CPIX/>".

Definition externals : Externals :=
  Build_Externals UUID b64decode widevine_generate_pssh
    playready_generate_pssh pretty_print.

Definition kid1 : string := "E82F184C3AAA57B4ACE8606B5E3FEBAD".
Definition cek1 : string := "C2FAF66E2852CC4C4A751F0A2A941FDB".
Definition kid2 : string := "0DC3EC4F7683548B81E73C64E582E136".
Definition cek2 : string := "5800F01B6A82AA4AB94D59A5F94E4F5F".
Definition key1 : string := kid1 ++ ":" ++ cek1.
Definition key2 : string := kid2 ++ ":" ++ cek2.

(** [--key ... --widevine? --playready? --playready.la_url? --usage_rule*
    --usage_rule_preset* --stdout], everything else at its default. *)
Definition cmd (ks : list string) (wv pr : bool) (la_url : option string)
    (custom preset : option (list (string * string))) : Args :=
  {| keys := ks;
     widevine := wv;
     widevine_content_id := None;
     widevine_provider := None;
     widevine_pssh_version := 1;
     playready := pr;
     playready_la_url := la_url;
     playready_algorithm := "AESCTR";
     playready_pssh_version := 1;
     custom_usage_rules := custom;
     preset_usage_rules := preset;
     output_filename := None;
     stdout := true;
     log_level := "WARN" |}.

Definition u1 : Z := 308625425791778520274133761411854101421.
Definition u2 : Z := 18297254776987497849946398590912094518.

(** The two keys, as [parse_keys] builds them. *)
Definition keys12 : list ContentKey :=
  [mkContentKey u1 (Py.bytes_of_string "wvr2bihSzExKdR8KKpQf2w==");
   mkContentKey u2 (Py.bytes_of_string "WADwG2qCqkq5TVml+U5PXw==")].

(** A content key of 32 characters that are no hexadecimal digits. *)
Definition not_hex : string := "ZZZZZZZZZZZZZZZZZZZZZZZZZZZZZZZZ".

(** A key id of no key of [keys12]. *)
Definition kid3 : string := "00000000000000000000000000000003".

Definition key1_other_cek : string := kid1 ++ ":" ++ cek2.
Definition key_not_hex : string := kid1 ++ ":" ++ not_hex.
Definition key_short_kid : string := "E82F:" ++ cek1.
Definition key_short_cek : string := kid1 ++ ":C2FA".

Definition la_url : string := "https://example.com/rightsmanager.asmx".

(** The custom rule of the script's docstring. *)
Definition docstring_rule : string :=
  "video:min_pixels=0,video:max_pixels=442368,bitrate:max_bitrate=500000".

Definition w0 : world := mkWorld [] [].

(** A second environment, in which both PSSH generators raise. *)
Definition failing_generators : Externals :=
  Build_Externals UUID b64decode
    (fun _ _ _ _ => Raise (Exception_ "generator failed"))
    (fun _ _ _ _ => Raise (Exception_ "generator failed"))
    pretty_print.

End Sample.

(** ** Properties of the built-ins *)

Lemma split_length (sep : ascii) (s : string) :
  length (Py.split sep s) = S (Py.count sep s).
Proof.
  induction s as [|c s IH]; simpl; [reflexivity|].
  destruct (Ascii.eqb c sep); simpl.
  - now rewrite IH.
  - destruct (Py.split sep s) as [|p ps]; simpl in *; congruence.
Qed.

Lemma unpack2_None {A : Type} (l : list A) :
  Py.unpack2 l = None <-> length l <> 2.
Proof.
  destruct l as [|a [|b [|c l]]]; simpl; split; intros; congruence || lia.
Qed.

Lemma unpack2_split_None (sep : ascii) (s : string) :
  Py.unpack2 (Py.split sep s) = None <-> Py.count sep s <> 1.
Proof. rewrite unpack2_None, split_length. lia. Qed.

Lemma unhexlify_b16 (l : list ascii) (n : nat) :
  length l = 2 * n -> forallb Py.is_b16 l = true ->
  exists bs, Py.unhexlify l = Some bs /\ length bs = n.
Proof.
  revert l. induction n as [|n IH]; intros l Hlen Hall.
  - destruct l; [|discriminate]. exists []. split; reflexivity.
  - destruct l as [|h [|d rest]]; simpl in Hlen; try lia.
    simpl in Hall. apply andb_true_iff in Hall as [Hh Hall].
    apply andb_true_iff in Hall as [Hd Hall].
    destruct (IH rest) as [bs [Hbs Hn]]; [lia | assumption |].
    unfold Py.is_b16 in Hh, Hd. simpl.
    destruct (Py.b16_value h) as [x|]; [|discriminate].
    destruct (Py.b16_value d) as [y|]; [|discriminate].
    rewrite Hbs. eexists. split; [reflexivity|]. simpl. now rewrite Hn.
Qed.

Lemma chars_length (s : string) : length (Py.chars s) = String.length s.
Proof. induction s; simpl; congruence. Qed.

Lemma is_b16_ascii (c : ascii) : Py.is_b16 c = true -> Py.is_ascii c = true.
Proof.
  unfold Py.is_b16, Py.b16_value, Py.is_ascii.
  destruct (48 <=? N_of_ascii c)%N eqn:E1, (N_of_ascii c <=? 57)%N eqn:E2,
    (65 <=? N_of_ascii c)%N eqn:E3, (N_of_ascii c <=? 70)%N eqn:E4;
    simpl; intros; try discriminate; apply N.ltb_lt;
    apply N.leb_le in E2 || apply N.leb_le in E4; lia.
Qed.

Lemma forallb_b16_ascii (l : list ascii) :
  forallb Py.is_b16 l = true -> forallb Py.is_ascii l = true.
Proof.
  induction l as [|c l IH]; simpl; [reflexivity|].
  intros Hall. apply andb_true_iff in Hall as [Hc Hl].
  now rewrite (is_b16_ascii c Hc), IH.
Qed.

(** A token of 32 digits over [0-9A-F] decodes, and to 16 bytes. *)
Lemma b16decode_32 (s : string) :
  String.length s = 32 -> forallb Py.is_b16 (Py.chars s) = true ->
  exists raw, Py.b16decode s = Ok raw /\ length raw = 16.
Proof.
  intros Hlen Hall. unfold Py.b16decode.
  rewrite (forallb_b16_ascii _ Hall), Hall. simpl.
  destruct (unhexlify_b16 (Py.chars s) 16) as [bs [Hbs Hn]];
    [rewrite chars_length; lia | assumption |].
  rewrite Hbs. now exists bs.
Qed.

(** A token with a character outside [0-9A-F] does not decode. *)
Lemma b16decode_bad (s : string) :
  forallb Py.is_b16 (Py.chars s) = false ->
  Py.b16decode s =
    Raise (if forallb Py.is_ascii (Py.chars s) then BinasciiError
           else ValueError).
Proof.
  intros Hbad. unfold Py.b16decode. rewrite Hbad.
  now destruct (forallb Py.is_ascii (Py.chars s)).
Qed.

(** ** Properties of key parsing *)

Section KeyParsing.

Context `{Externals}.

(** The key ids of a batch do not matter to [parse_keys]: it appends the
    key of each string in turn and leaves at the first that raises. *)
Lemma parse_keys_from_spec (ks : list string) (acc : list ContentKey) :
  (exists l, parse_keys_from ks acc = Ok (acc ++ l)
             /\ Forall2 (fun k c => parse_key k = Ok c) ks l)
  \/ (exists pre k post e,
        ks = pre ++ k :: post
        /\ Forall (fun k' => is_Ok (parse_key k')) pre
        /\ parse_key k = Raise e
        /\ parse_keys_from ks acc = Raise e).
Proof.
  revert acc. induction ks as [|k ks IH]; intros acc.
  - left. exists []. split; [simpl; now rewrite app_nil_r | constructor].
  - simpl. destruct (parse_key k) as [c|e] eqn:Hk; simpl.
    + destruct (IH (acc ++ [c])) as [[l [Hl Hall]] | [pre [k' [post [e [-> [Hpre [Hk' Hr]]]]]]]].
      * left. exists (c :: l). split.
        -- rewrite Hl. now rewrite <- app_assoc.
        -- now constructor.
      * right. exists (k :: pre), k', post, e. repeat split; try assumption.
        constructor; [now rewrite Hk | assumption].
    + right. exists [], k, ks, e. repeat split; try assumption. constructor.
Qed.

Lemma parse_keys_ok_prefix (pre : list string) (k : string)
    (post : list string) (e : exn) (acc : list ContentKey) :
  Forall (fun k' => is_Ok (parse_key k')) pre ->
  parse_key k = Raise e ->
  parse_keys_from (pre ++ k :: post) acc = Raise e.
Proof.
  intros Hpre Hk. revert acc.
  induction Hpre as [|k' pre Hk' _ IH]; intros acc; simpl.
  - now rewrite Hk.
  - destruct (parse_key k'); [simpl; apply IH | contradiction].
Qed.

(** C3, as the script has it.  A batch of N strings parses to N keys, the
    key of each string in input order, or fails with the first error met.
    Nothing compares the key ids of a batch with one another: a batch whose
    strings each parse on their own parses, repeated key ids or not. *)
Theorem parse_keys_batch (ks : list string) :
  ((exists l, parse_keys ks = Ok l
              /\ length l = length ks
              /\ Forall2 (fun k c => parse_key k = Ok c) ks l)
   \/ (exists pre k post e,
         ks = pre ++ k :: post
         /\ Forall (fun k' => is_Ok (parse_key k')) pre
         /\ parse_key k = Raise e
         /\ parse_keys ks = Raise e))
  /\ (Forall (fun k => is_Ok (parse_key k)) ks ->
      exists l, parse_keys ks = Ok l /\ length l = length ks).
Proof.
  unfold parse_keys.
  destruct (parse_keys_from_spec ks []) as [[l [Hl Hall]] | Herr].
  - assert (Hlen : length l = length ks)
      by (symmetry; eapply Forall2_length, Hall).
    split; [left|intros _]; exists l; repeat split; assumption.
  - split; [right; exact Herr|]. intros Hall.
    destruct Herr as (pre & k & post & e & -> & _ & Hk & _).
    apply Forall_app in Hall as [_ Hall].
    apply Forall_cons in Hall as [Hok _].
    rewrite Hk in Hok. contradiction.
Qed.

(** C9.  A key spec that does not hold exactly one colon, hence does not
    split into two tokens, fails with the exception
    "key must be KEY_ID:CONTENT_KEY (missing :)"; the batch it is in
    returns no key list at all. *)
Theorem malformed_key_spec (pre : list string) (key : string)
    (post : list string) :
  Py.count ":" key <> 1 ->
  Forall (fun k' => is_Ok (parse_key k')) pre ->
  parse_key key
    = Raise (Exception_ "key must be KEY_ID:CONTENT_KEY (missing :)")
  /\ parse_keys (pre ++ key :: post)
    = Raise (Exception_ "key must be KEY_ID:CONTENT_KEY (missing :)").
Proof.
  intros Hcolon Hpre.
  assert (Hk : parse_key key
               = Raise (Exception_ "key must be KEY_ID:CONTENT_KEY (missing :)")).
  { unfold parse_key.
    apply unpack2_split_None in Hcolon. now rewrite Hcolon. }
  split; [exact Hk|].
  unfold parse_keys. now apply parse_keys_ok_prefix.
Qed.

(** C5, as the script has it.  With the spec split into two tokens: a key
    id that is not 32 characters long fails with "key ID must be 128-bit";
    otherwise a content key that is not 32 characters long fails with
    "cek must be 128-bit"; otherwise a content key with a character
    outside [0-9A-F] is refused by the base-16 decoder, with its own
    exception; otherwise the content key decodes to 16 bytes and the key
    is built from the key id text and the base64 of these bytes. *)
Theorem key_token_checks (key kid_text cek_text : string) :
  Py.unpack2 (Py.split ":" key) = Some (kid_text, cek_text) ->
  (String.length kid_text <> 32 ->
   parse_key key = Raise (Exception_ "key ID must be 128-bit"))
  /\ (String.length kid_text = 32 -> String.length cek_text <> 32 ->
      parse_key key = Raise (Exception_ "cek must be 128-bit"))
  /\ (String.length kid_text = 32 -> String.length cek_text = 32 ->
      forallb Py.is_b16 (Py.chars cek_text) = false ->
      parse_key key
        = Raise (if forallb Py.is_ascii (Py.chars cek_text)
                 then BinasciiError else ValueError))
  /\ (String.length kid_text = 32 -> String.length cek_text = 32 ->
      forallb Py.is_b16 (Py.chars cek_text) = true ->
      exists raw, Py.b16decode cek_text = Ok raw /\ length raw = 16
                  /\ parse_key key
                      = new_ContentKey kid_text (Py.b64encode raw)).
Proof.
  intros Hsplit. unfold parse_key. rewrite Hsplit.
  repeat split.
  - intros Hk. apply Nat.eqb_neq in Hk. now rewrite Hk.
  - intros Hk Hc. apply Nat.eqb_eq in Hk. apply Nat.eqb_neq in Hc.
    now rewrite Hk, Hc.
  - intros Hk Hc Hbad. apply Nat.eqb_eq in Hk. apply Nat.eqb_eq in Hc.
    rewrite Hk, Hc. simpl. now rewrite (b16decode_bad _ Hbad).
  - intros Hk Hc Hall.
    destruct (b16decode_32 cek_text Hc Hall) as [raw [Hraw Hlen]].
    exists raw. repeat split; try assumption.
    apply Nat.eqb_eq in Hk. apply Nat.eqb_eq in Hc.
    rewrite Hk, Hc. simpl. now rewrite Hraw.
Qed.

End KeyParsing.

(** ** Properties of the monad and of the loops *)

Lemma bind_Ret_inv {A B : Type} (c : M A) (k : A -> M B) (w w' : world)
    (b : B) :
  bind c k w = (Ret b, w') ->
  exists a w1, c w = (Ret a, w1) /\ k a w1 = (Ret b, w').
Proof.
  unfold bind. destruct (c w) as [[a|e|m|n] w1]; intros Hb;
    try discriminate.
  now exists a, w1.
Qed.

Lemma quiet_ret {A : Type} (a : A) : quiet (ret a).
Proof. intros w. split; [reflexivity | discriminate]. Qed.

Lemma quiet_raise {A : Type} (e : exn) : quiet (@raise A e).
Proof. intros w. split; [reflexivity | discriminate]. Qed.

Lemma quiet_parser_error {A : Type} (m : message) : quiet (@parser_error A m).
Proof. intros w. split; [reflexivity | discriminate]. Qed.

Lemma quiet_lift {A : Type} (r : result A) : quiet (lift r).
Proof. destruct r; [apply quiet_ret | apply quiet_raise]. Qed.

Lemma quiet_log_call (c : call) : quiet (log_call c).
Proof. intros w. split; [reflexivity | discriminate]. Qed.

Lemma quiet_bind {A B : Type} (c : M A) (k : A -> M B) :
  quiet c -> (forall a, quiet (k a)) -> quiet (bind c k).
Proof.
  intros Hc Hk w. unfold bind. specialize (Hc w).
  destruct (c w) as [[a|e|m|n] w1]; simpl in Hc; destruct Hc as [Hout Hex].
  - destruct (Hk a w1) as [Hout' Hex']. split; [congruence | assumption].
  - split; [assumption | discriminate].
  - split; [assumption | discriminate].
  - now destruct (Hex n).
Qed.

Lemma quiet_for_each {A S : Type} (body : S -> A -> M S) (l : list A) :
  (forall s x, quiet (body s x)) -> forall s, quiet (for_each body l s).
Proof.
  intros Hbody. induction l as [|x l IH]; intros s; simpl.
  - apply quiet_ret.
  - apply quiet_bind; [apply Hbody | exact IH].
Qed.

Create HintDb quiet.
#[local] Hint Resolve quiet_ret quiet_raise quiet_parser_error quiet_lift
  quiet_log_call quiet_bind quiet_for_each : quiet.

(** A loop that returns has run every iteration to its end: an invariant of
    the loop-carried state holds at the end, and what a returning iteration
    tells of its element holds of every element. *)
Lemma for_each_Ret_inv {A S : Type} (body : S -> A -> M S) (P : S -> Prop)
    (Q : A -> Prop) (l : list A) :
  (forall s x w s' w', P s -> body s x w = (Ret s', w') -> P s' /\ Q x) ->
  forall s w s' w',
    P s -> for_each body l s w = (Ret s', w') -> P s' /\ Forall Q l.
Proof.
  intros Hbody. induction l as [|x l IH]; intros s w s' w' Hs Hrun;
    simpl in Hrun.
  - unfold ret in Hrun. inversion Hrun; subst. split; [assumption|constructor].
  - apply bind_Ret_inv in Hrun as (s1 & w1 & Hx & Hrest).
    destruct (Hbody _ _ _ _ _ Hs Hx) as [Hs1 Hq].
    destruct (IH _ _ _ _ Hs1 Hrest) as [Hs' Hl].
    split; [assumption | now constructor].
Qed.

(** A loop that only appends one entry per element. *)
Lemma for_each_append {A B : Type} (f : A -> B) (l : list A) (acc : list B)
    (w : world) :
  for_each (fun s x => ret (s ++ [f x])) l acc w = (Ret (acc ++ map f l), w).
Proof.
  revert acc. induction l as [|x l IH]; intros acc; simpl.
  - unfold ret. now rewrite app_nil_r.
  - unfold bind, ret at 1. rewrite IH. now rewrite <- app_assoc.
Qed.

(** ** Properties of [main] *)

Section Main.

Context `{Externals}.

Lemma quiet_rule_kid_of (ks : list ContentKey) (kid_text msg : string) :
  quiet (rule_kid_of ks kid_text msg).
Proof.
  unfold rule_kid_of. destruct (UUID kid_text); [|auto with quiet].
  destruct (negb _); auto with quiet.
Qed.

Lemma quiet_preset_rule (ks : list ContentKey) (rules : list UsageRule)
    (rule : string * string) :
  quiet (preset_rule ks rules rule).
Proof.
  unfold preset_rule. apply quiet_bind; [apply quiet_rule_kid_of|].
  intros u. repeat case_decide; auto with quiet.
Qed.

Lemma quiet_custom_rule (ks : list ContentKey) (rule : string * string) :
  quiet (custom_rule ks rule).
Proof.
  unfold custom_rule. apply quiet_bind; [apply quiet_rule_kid_of|].
  intros u. apply quiet_lift.
Qed.

Lemma quiet_drm_stage (a : Args) (ks : list ContentKey) :
  quiet (drm_stage a ks).
Proof.
  unfold drm_stage, widevine_stage, playready_stage, call_widevine,
    call_playready.
  apply quiet_bind; [|intros drm].
  - destruct (widevine a); [|auto with quiet].
    apply quiet_bind; [auto with quiet|].
    intros pssh. apply quiet_for_each. auto with quiet.
  - destruct (playready a); [|auto with quiet].
    apply quiet_bind; [auto with quiet|]. intros pks.
    apply quiet_bind; [auto with quiet|].
    intros pssh. apply quiet_for_each. auto with quiet.
Qed.

Lemma quiet_main_body (a : Args) : quiet (main_body a).
Proof.
  unfold main_body.
  apply quiet_bind; [|intros _].
  { unfold set_log_level. destruct (Py.checkLevel _); auto with quiet. }
  apply quiet_bind; [|intros _].
  { unfold check_required. destruct (_ && _); auto with quiet. }
  apply quiet_bind; [|intros ks].
  { unfold keys_stage. destruct (parse_keys _); auto with quiet. }
  apply quiet_bind; [apply quiet_drm_stage|intros drm].
  apply quiet_bind; [|intros rules].
  { unfold preset_stage. destruct (truthy _); [|auto with quiet].
    apply quiet_for_each. intros. apply quiet_preset_rule. }
  apply quiet_bind; [|auto with quiet].
  unfold custom_stage. destruct (truthy _); [|auto with quiet].
  apply quiet_for_each. intros.
  apply quiet_bind; [apply quiet_custom_rule | auto with quiet].
Qed.

(** C2.  Whatever the command line: a run that completes the key, DRM and
    usage-rule stages ends in [exit(0)], in the state these stages left;
    no run of [main] returns; and no run prints or writes a document. *)
Theorem main_exits_before_document (a : Args) (w : world) :
  (forall st w', main_body a w = (Ret st, w') -> main a w = (Exit 0, w'))
  /\ (forall u, fst (main a w) <> Ret u)
  /\ (forall n, fst (main a w) = Exit n -> n = 0%Z)
  /\ output (snd (main a w)) = output w.
Proof.
  destruct (quiet_main_body a w) as [Hout Hexit].
  unfold main, bind, exit.
  destruct (main_body a w) as [[st|e|m|n] w1]; simpl in *.
  - repeat split; try discriminate; try assumption.
    + intros st' w' Heq. now inversion Heq.
    + intros n Heq. now inversion Heq.
  - repeat split; try discriminate; assumption.
  - repeat split; try discriminate; assumption.
  - now destruct (Hexit n).
Qed.

(** C6.  With [--playready] and no [--playready.la_url], [main] stops at
    the parser error "When setting --playready must also set
    --playready.la_url" (after the log level was accepted), before any key
    is parsed: no PSSH generator is called and nothing is written. *)
Theorem playready_requires_la_url (a : Args) (w : world) :
  playready a = true ->
  playready_la_url a = None ->
  main a w
  = (if Py.checkLevel (log_level a)
     then ParserError
            (MsgStr "When setting --playready must also set --playready.la_url")
     else Raised ValueError, w).
Proof.
  intros Hp Hurl. unfold main, main_body, set_log_level, check_required.
  rewrite Hp, Hurl.
  destruct (Py.checkLevel (log_level a)); reflexivity.
Qed.

(** The keys handed to the PlayReady generator carry the key ids of the key
    list, in order. *)
Lemma playready_keys_kids (ks : list ContentKey) (pks : list (Z * Py.bytes)) :
  comprehension playready_key ks = Ok pks -> map fst pks = map kid ks.
Proof.
  revert pks. induction ks as [|k ks IH]; intros pks; simpl.
  - intros Heq. now inversion Heq.
  - unfold playready_key at 1.
    destruct (b64decode (cek k)) as [raw|e]; [|discriminate].
    destruct (comprehension playready_key ks) as [l|e]; [|discriminate].
    intros Heq. inversion Heq; subst. simpl. now rewrite (IH l).
Qed.

(** C10.  When the generators answer, the DRM stage returns the Widevine
    entries followed by the PlayReady entries, each block holding one
    entry per key in key order with the base64 text of the one payload of
    its system; each enabled generator was called exactly once, on the key
    ids of all keys in key order, and a disabled one not at all. *)
Theorem drm_entries_per_key (a : Args) (ks : list ContentKey) (w : world)
    (pw pp : Py.bytes) (pks : list (Z * Py.bytes)) :
  (widevine a = true ->
   widevine_generate_pssh (map kid ks) (widevine_provider a)
     (widevine_content_id a) (widevine_pssh_version a) = Ok pw) ->
  (playready a = true ->
   comprehension playready_key ks = Ok pks
   /\ playready_generate_pssh pks (playready_la_url a)
        (playready_algorithm a) (playready_pssh_version a) = Ok pp) ->
  drm_stage a ks w
  = (Ret ((if widevine a then entries WIDEVINE_SYSTEM_ID pw ks else [])
          ++ (if playready a then entries PLAYREADY_SYSTEM_ID pp ks
              else [])),
     mkWorld
       (calls w
        ++ (if widevine a
            then [WidevineGenerate (map kid ks) (widevine_provider a)
                    (widevine_content_id a) (widevine_pssh_version a)]
            else [])
        ++ (if playready a
            then [PlayreadyGenerate pks (playready_la_url a)
                    (playready_algorithm a) (playready_pssh_version a)]
            else []))
       (output w))
  /\ (playready a = true -> map fst pks = map kid ks).
Proof.
  intros Hw Hp. split;
    [|intros Hpr; destruct (Hp Hpr) as [Hpks _];
      exact (playready_keys_kids _ _ Hpks)].
  destruct w as [cs out].
  unfold drm_stage, widevine_stage, playready_stage, call_widevine,
    call_playready, entries.
  destruct (widevine a), (playready a); simpl.
  - rewrite (Hw eq_refl). destruct (Hp eq_refl) as [Hpks Hpp].
    unfold bind at 1. unfold bind at 1. unfold log_call at 1. simpl.
    rewrite for_each_append. simpl.
    rewrite Hpks. unfold bind at 1. simpl.
    unfold bind at 1. unfold bind at 1. unfold log_call at 1. simpl.
    rewrite Hpp. simpl. rewrite for_each_append. simpl.
    now rewrite <- app_assoc.
  - rewrite (Hw eq_refl).
    unfold bind at 1. unfold bind at 1. unfold bind at 1.
    unfold log_call at 1. simpl.
    rewrite for_each_append. simpl. now rewrite !app_nil_r.
  - destruct (Hp eq_refl) as [Hpks Hpp].
    unfold bind at 1. simpl. rewrite Hpks. unfold bind at 1. simpl.
    unfold bind at 1. unfold bind at 1. unfold log_call at 1. simpl.
    rewrite Hpp. simpl. rewrite for_each_append. reflexivity.
  - unfold bind, ret. simpl. now rewrite !app_nil_r.
Qed.

Lemma rule_kid_of_known (ks : list ContentKey) (kid_text msg : string)
    (u : Z) (w : world) :
  UUID kid_text = Some u -> u ∈ map kid ks ->
  rule_kid_of ks kid_text msg w = (Ret u, w).
Proof.
  intros Hu Hin. unfold rule_kid_of. rewrite Hu.
  now rewrite bool_decide_eq_true_2.
Qed.

Lemma rule_kid_of_unknown (ks : list ContentKey) (kid_text msg : string)
    (w : world) :
  ~ known_kid ks kid_text ->
  rule_kid_of ks kid_text msg w = (ParserError (MsgStr msg), w).
Proof.
  intros Hunk. unfold rule_kid_of.
  destruct (UUID kid_text) as [u|] eqn:Hu; [|reflexivity].
  case_bool_decide as Hin; [|reflexivity].
  exfalso. apply Hunk. now exists u.
Qed.

Lemma rule_kid_of_Ret_inv (ks : list ContentKey) (kid_text msg : string)
    (u : Z) (w w' : world) :
  rule_kid_of ks kid_text msg w = (Ret u, w') ->
  UUID kid_text = Some u /\ u ∈ map kid ks /\ w' = w.
Proof.
  unfold rule_kid_of.
  destruct (UUID kid_text) as [u'|]; [|discriminate].
  case_bool_decide as Hin; simpl; [|discriminate].
  unfold ret. intros Heq. inversion Heq; subst. now repeat split.
Qed.

Lemma preset_rule_Ret_inv (ks : list ContentKey) (rules rules' : list UsageRule)
    (rule : string * string) (w w' : world) :
  preset_rule ks rules rule w = (Ret rules', w') ->
  known_kid ks (fst rule)
  /\ exists r, rule_kid r ∈ map kid ks /\ rules' = rules ++ [r].
Proof.
  unfold preset_rule. intros Hrun.
  apply bind_Ret_inv in Hrun as (u & w1 & Hu & Hrun).
  apply rule_kid_of_Ret_inv in Hu as (Hu & Hin & ->).
  split; [now exists u|].
  repeat case_decide; try discriminate;
    unfold ret in Hrun; inversion Hrun; subst;
    eexists; (split; [|reflexivity]); exact Hin.
Qed.

Lemma custom_rule_Ret_inv (ks : list ContentKey) (rule : string * string)
    (d : gmap string rule_filter) (w w' : world) :
  custom_rule ks rule w = (Ret d, w') -> known_kid ks (fst rule).
Proof.
  unfold custom_rule. intros Hrun.
  apply bind_Ret_inv in Hrun as (u & w1 & Hu & Hrun).
  apply rule_kid_of_Ret_inv in Hu as (Hu & Hin & ->).
  now exists u.
Qed.

Lemma preset_stage_Ret_inv (a : Args) (ks : list ContentKey)
    (rules : list UsageRule) (w w' : world) :
  preset_stage a ks [] w = (Ret rules, w') ->
  Forall (fun r => rule_kid r ∈ map kid ks) rules
  /\ Forall (fun rule => known_kid ks (fst rule))
       (items (preset_usage_rules a)).
Proof.
  unfold preset_stage. destruct (truthy (preset_usage_rules a)) eqn:Ht.
  - apply for_each_Ret_inv; [|constructor].
    intros s x w0 s' w0' Hs Hx.
    apply preset_rule_Ret_inv in Hx as (Hk & r & Hr & ->).
    split; [|assumption].
    apply Forall_app. split; [assumption | now repeat constructor].
  - unfold ret. intros Heq. inversion Heq; subst. split; [constructor|].
    destruct (preset_usage_rules a) as [[|x l]|]; simpl in *;
      try discriminate; constructor.
Qed.

Lemma custom_stage_Ret_inv (a : Args) (ks : list ContentKey) (w w' : world) :
  custom_stage a ks w = (Ret tt, w') ->
  Forall (fun rule => known_kid ks (fst rule))
    (items (custom_usage_rules a)).
Proof.
  unfold custom_stage. destruct (truthy (custom_usage_rules a)) eqn:Ht.
  - intros Hrun.
    apply (for_each_Ret_inv _ (fun _ => True)
             (fun rule => known_kid ks (fst rule))) in Hrun;
      [tauto | | exact I].
    intros s x w0 s' w0' _ Hx. split; [exact I|].
    apply bind_Ret_inv in Hx as (d & w1 & Hd & _).
    now apply custom_rule_Ret_inv in Hd.
  - intros _.
    destruct (custom_usage_rules a) as [[|x l]|]; simpl in *;
      try discriminate; constructor.
Qed.

(** C7.  A usage rule, preset or custom, whose key id text names no key of
    the key list ends [main] with the parser error "Invalid key ID in
    preset usage rule." (resp. "custom"), leaving the rules as they were;
    so a run that completes its stages had no such rule on its command
    line, and every rule it built refers to a key of the key list. *)
Theorem unknown_key_reference :
  (forall (ks : list ContentKey) (rules : list UsageRule)
          (rule : string * string) (w : world),
      ~ known_kid ks (fst rule) ->
      preset_rule ks rules rule w
      = (ParserError (MsgStr "Invalid key ID in preset usage rule."), w)
      /\ custom_rule ks rule w
         = (ParserError (MsgStr "Invalid key ID in custom usage rule."), w))
  /\ (forall (a : Args) (w w' : world) (ks : list ContentKey)
             (drm : list DRMSystem) (rules : list UsageRule),
         main_body a w = (Ret (ks, drm, rules), w') ->
         Forall (fun r => rule_kid r ∈ map kid ks) rules
         /\ Forall (fun rule => known_kid ks (fst rule))
              (items (preset_usage_rules a))
         /\ Forall (fun rule => known_kid ks (fst rule))
              (items (custom_usage_rules a))).
Proof.
  split.
  - intros ks rules rule w Hunk. split.
    + unfold preset_rule, bind. now rewrite rule_kid_of_unknown.
    + unfold custom_rule, bind. now rewrite rule_kid_of_unknown.
  - intros a w w' ks drm rules Hrun. unfold main_body in Hrun.
    apply bind_Ret_inv in Hrun as (? & w1 & _ & Hrun).
    apply bind_Ret_inv in Hrun as (? & w2 & _ & Hrun).
    apply bind_Ret_inv in Hrun as (ks0 & w3 & _ & Hrun).
    apply bind_Ret_inv in Hrun as (drm0 & w4 & _ & Hrun).
    apply bind_Ret_inv in Hrun as (rules0 & w5 & Hpre & Hrun).
    apply bind_Ret_inv in Hrun as ([] & w6 & Hcus & Hrun).
    unfold ret in Hrun. inversion Hrun; subst.
    apply preset_stage_Ret_inv in Hpre as [Hrules Hpre].
    apply custom_stage_Ret_inv in Hcus.
    now repeat split.
Qed.

(** C8.  For a rule on a key of the key list, the preset name decides as
    the preset table of the specification says: a name of the table
    appends the rule with the filters of its row, and any other name ends
    [main] with the parser error "Invalid preset rule. Allowed values
    are: ...", a message in which each of the six names occurs. *)
Theorem preset_names (ks : list ContentKey) (rules : list UsageRule)
    (kid_text name : string) (u : Z) (w : world) :
  UUID kid_text = Some u ->
  u ∈ map kid ks ->
  preset_rule ks rules (kid_text, name) w
  = (match spec_preset_filters name with
     | Some fs => Ret (rules ++ [mkUsageRule u fs])
     | None =>
         ParserError
           (MsgStr "Invalid preset rule. Allowed values are: audio, video, video_sd, video_hd, video_uhd1, video_uhd2")
     end, w)
  /\ (spec_preset_filters name = None <-> name ∉ spec_preset_names)
  /\ Forall
       (fun n =>
          String.index 0 n
            "Invalid preset rule. Allowed values are: audio, video, video_sd, video_hd, video_uhd1, video_uhd2"
          <> None)
       spec_preset_names.
Proof.
  intros Hu Hin. repeat split.
  - unfold preset_rule, bind. rewrite (rule_kid_of_known _ _ _ u); try assumption.
    unfold spec_preset_filters. simpl.
    repeat case_decide; reflexivity.
  - unfold spec_preset_filters, spec_preset_names.
    repeat case_decide; try discriminate. intros _.
    rewrite !elem_of_cons, elem_of_nil. tauto.
  - unfold spec_preset_filters, spec_preset_names. intros Hnot.
    repeat case_decide; try reflexivity; exfalso; apply Hnot; subst;
      rewrite !elem_of_cons; tauto.
  - unfold spec_preset_names. repeat constructor; vm_compute; discriminate.
Qed.

End Main.

(** ** The script on concrete command lines *)

Example split_two : Py.split ":" "ab:cd" = ["ab"; "cd"].
Proof. reflexivity. Qed.

Example split_no_separator : Py.split ":" "" = [""].
Proof. reflexivity. Qed.

Example split_trailing : Py.split ":" "a::" = ["a"; ""; ""].
Proof. reflexivity. Qed.

Example b64encode_three :
  Py.string_of_bytes (Py.b64encode (Py.bytes_of_string "Man")) = "TWFu".
Proof. reflexivity. Qed.

Example b64encode_two :
  Py.string_of_bytes (Py.b64encode (Py.bytes_of_string "Ma")) = "TWE=".
Proof. reflexivity. Qed.

Example b64encode_one :
  Py.string_of_bytes (Py.b64encode (Py.bytes_of_string "M")) = "TQ==".
Proof. reflexivity. Qed.

Example b16decode_upper : Py.b16decode "4D61" = Ok (Py.bytes_of_string "Ma").
Proof. reflexivity. Qed.

Example b16decode_lower : Py.b16decode "4d61" = Raise BinasciiError.
Proof. reflexivity. Qed.

Example b16encode_two :
  Py.string_of_bytes (Py.b16encode (Py.bytes_of_string "Ma")) = "4D61".
Proof. reflexivity. Qed.

Example checkLevel_default : Py.checkLevel "WARN" = true.
Proof. reflexivity. Qed.

Example checkLevel_lower_case : Py.checkLevel "warn" = false.
Proof. reflexivity. Qed.

Example sample_b64decode :
  Sample.b64decode (Py.b64encode (Py.bytes_of_string "Many hands"))
  = Ok (Py.bytes_of_string "Many hands").
Proof. reflexivity. Qed.

Example parse_two_keys :
  @parse_keys Sample.externals [Sample.key1; Sample.key2] = Ok Sample.keys12.
Proof. vm_compute. reflexivity. Qed.

(** The last name of [PRESET_USAGE_RULES] is not one [main] accepts. *)
Example preset_constant_differs :
  PRESET_USAGE_RULES <> spec_preset_names
  /\ spec_preset_filters "videouhd2" = None.
Proof. split; [discriminate | reflexivity]. Qed.

(** C2 on a run: two keys and nothing else complete the stages, and [main]
    exits with status 0 having written nothing. *)
Lemma main_exits_before_document_witness :
  @main_body Sample.externals
    (Sample.cmd [Sample.key1; Sample.key2] false false None None None)
    Sample.w0
  = (Ret (Sample.keys12, [], []), Sample.w0)
  /\ @main Sample.externals
       (Sample.cmd [Sample.key1; Sample.key2] false false None None None)
       Sample.w0
     = (Exit 0, Sample.w0).
Proof.
  assert (Hbody : @main_body Sample.externals
            (Sample.cmd [Sample.key1; Sample.key2] false false None None None)
            Sample.w0
          = (Ret (Sample.keys12, [], []), Sample.w0))
    by (vm_compute; reflexivity).
  split; [exact Hbody|].
  exact (proj1 (@main_exits_before_document Sample.externals _ _) _ _ Hbody).
Defined.

(** C3 fails on the script: two specs with one key id and two content keys
    parse to two keys; no error is raised. *)
Lemma duplicate_key_id_accepted :
  @parse_keys Sample.externals
    [Sample.key1; Sample.key1_other_cek]
  = Ok [mkContentKey Sample.u1 (Py.bytes_of_string "wvr2bihSzExKdR8KKpQf2w==");
        mkContentKey Sample.u1 (Py.bytes_of_string "WADwG2qCqkq5TVml+U5PXw==")].
Proof. vm_compute. reflexivity. Qed.

(** C3 on a batch with a repeated key id: both strings parse on their own,
    so the batch does. *)
Lemma parse_keys_batch_witness :
  Forall (fun k => is_Ok (@parse_key Sample.externals k))
    [Sample.key1; Sample.key1_other_cek]
  /\ exists l,
      @parse_keys Sample.externals [Sample.key1; Sample.key1_other_cek] = Ok l
      /\ length l = 2.
Proof.
  assert (Hall : Forall (fun k => is_Ok (@parse_key Sample.externals k))
                   [Sample.key1; Sample.key1_other_cek])
    by (repeat constructor; vm_compute; exact I).
  split; [exact Hall|].
  exact (proj2 (@parse_keys_batch Sample.externals
                  [Sample.key1; Sample.key1_other_cek]) Hall).
Defined.

(** C5 fails on the script: a content key of 32 characters that are no
    hexadecimal digits is an error, and not one of the two length errors. *)
Lemma non_hex_content_key_error :
  String.length Sample.not_hex = 32
  /\ @parse_key Sample.externals Sample.key_not_hex
     = Raise BinasciiError
  /\ ~ InvalidKeyLength BinasciiError.
Proof.
  split; [reflexivity|]. split; [vm_compute; reflexivity|].
  intros [Hk | Hc]; discriminate.
Qed.

(** C5 on three specs: a short key id, a short content key, a content key
    that is no hexadecimal text. *)
Lemma key_token_checks_witness :
  @parse_key Sample.externals Sample.key_short_kid
  = Raise (Exception_ "key ID must be 128-bit")
  /\ @parse_key Sample.externals Sample.key_short_cek
     = Raise (Exception_ "cek must be 128-bit")
  /\ @parse_key Sample.externals Sample.key_not_hex
     = Raise BinasciiError.
Proof.
  split; [|split].
  - refine (proj1 (@key_token_checks Sample.externals
                     Sample.key_short_kid "E82F" Sample.cek1 eq_refl) _).
    vm_compute. discriminate.
  - refine (proj1 (proj2 (@key_token_checks Sample.externals
                     Sample.key_short_cek Sample.kid1 "C2FA" eq_refl))
              eq_refl _).
    vm_compute. discriminate.
  - exact (proj1 (proj2 (proj2 (@key_token_checks Sample.externals
                     Sample.key_not_hex Sample.kid1
                     Sample.not_hex eq_refl)))
             eq_refl eq_refl eq_refl).
Defined.

(** C9 on a batch: the second spec has no colon. *)
Lemma malformed_key_spec_witness :
  Py.count ":" Sample.kid2 <> 1
  /\ @parse_keys Sample.externals [Sample.key1; Sample.kid2; Sample.key2]
     = Raise (Exception_ "key must be KEY_ID:CONTENT_KEY (missing :)").
Proof.
  assert (Hcount : Py.count ":" Sample.kid2 <> 1)
    by (vm_compute; discriminate).
  split; [exact Hcount|].
  refine (proj2 (@malformed_key_spec Sample.externals [Sample.key1]
                   Sample.kid2 [Sample.key2] Hcount _)).
  constructor; [vm_compute; exact I | constructor].
Defined.

(** C6 on a run: [--playready] without a licence URL. *)
Lemma playready_requires_la_url_witness :
  playready (Sample.cmd [Sample.key1] false true None None None) = true
  /\ playready_la_url (Sample.cmd [Sample.key1] false true None None None)
     = None
  /\ @main Sample.externals
       (Sample.cmd [Sample.key1] false true None None None) Sample.w0
     = (ParserError
          (MsgStr "When setting --playready must also set --playready.la_url"),
        Sample.w0).
Proof.
  split; [reflexivity|]. split; [reflexivity|].
  exact (@playready_requires_la_url Sample.externals
           (Sample.cmd [Sample.key1] false true None None None) Sample.w0
           eq_refl eq_refl).
Defined.

(** C10 on a run: two keys, both systems enabled. *)
Lemma drm_entries_per_key_witness :
  @drm_stage Sample.externals
    (Sample.cmd [Sample.key1; Sample.key2] true true (Some Sample.la_url)
       None None)
    Sample.keys12 Sample.w0
  = (Ret [mkDRMSystem Sample.u1 WIDEVINE_SYSTEM_ID
            (Py.bytes_of_string "d2lkZXZpbmUgcHNzaA==");
          mkDRMSystem Sample.u2 WIDEVINE_SYSTEM_ID
            (Py.bytes_of_string "d2lkZXZpbmUgcHNzaA==");
          mkDRMSystem Sample.u1 PLAYREADY_SYSTEM_ID
            (Py.bytes_of_string "cGxheXJlYWR5IHBzc2g=");
          mkDRMSystem Sample.u2 PLAYREADY_SYSTEM_ID
            (Py.bytes_of_string "cGxheXJlYWR5IHBzc2g=")],
     mkWorld
       [WidevineGenerate [Sample.u1; Sample.u2] None None 1;
        PlayreadyGenerate
          [(Sample.u1, Py.bytes_of_string Sample.cek1);
           (Sample.u2, Py.bytes_of_string Sample.cek2)]
          (Some Sample.la_url) "AESCTR" 1]
       []).
Proof.
  refine (proj1 (@drm_entries_per_key Sample.externals
           (Sample.cmd [Sample.key1; Sample.key2] true true
              (Some Sample.la_url) None None)
           Sample.keys12 Sample.w0
           (Py.bytes_of_string "widevine pssh")
           (Py.bytes_of_string "playready pssh")
           [(Sample.u1, Py.bytes_of_string Sample.cek1);
            (Sample.u2, Py.bytes_of_string Sample.cek2)]
           (fun _ => eq_refl)
           (fun _ => conj eq_refl eq_refl))).
Defined.

Lemma kid3_unknown : ~ @known_kid Sample.externals Sample.keys12 Sample.kid3.
Proof.
  intros (u & Hu & Hin). vm_compute in Hu. inversion Hu; subst u.
  simpl in Hin. rewrite !elem_of_cons, elem_of_nil in Hin.
  destruct Hin as [Hin | [Hin | []]]; discriminate.
Qed.

(** C7 on two rules for a key id that no key has. *)
Lemma unknown_key_reference_witness :
  ~ @known_kid Sample.externals Sample.keys12 Sample.kid3
  /\ @preset_rule Sample.externals Sample.keys12 [] (Sample.kid3, "audio")
       Sample.w0
     = (ParserError (MsgStr "Invalid key ID in preset usage rule."),
        Sample.w0)
  /\ @custom_rule Sample.externals Sample.keys12
       (Sample.kid3, Sample.docstring_rule) Sample.w0
     = (ParserError (MsgStr "Invalid key ID in custom usage rule."),
        Sample.w0).
Proof.
  split; [exact kid3_unknown|]. split.
  - exact (proj1 (proj1 (@unknown_key_reference Sample.externals)
                    Sample.keys12 [] (Sample.kid3, "audio") Sample.w0
                    kid3_unknown)).
  - exact (proj2 (proj1 (@unknown_key_reference Sample.externals)
                    Sample.keys12 [] (Sample.kid3, Sample.docstring_rule)
                    Sample.w0 kid3_unknown)).
Defined.

Lemma u1_in_keys12 : Sample.u1 ∈ map kid Sample.keys12.
Proof. simpl. apply elem_of_cons. now left. Qed.

(** C8 on two rules for the first key: a preset of the table and a name
    that is not in it. *)
Lemma preset_names_witness :
  @preset_rule Sample.externals Sample.keys12 [] (Sample.kid1, "video_hd")
    Sample.w0
  = (Ret [mkUsageRule Sample.u1
            [VideoFilter (Some 442369%Z) (Some 2073600%Z)]], Sample.w0)
  /\ @preset_rule Sample.externals Sample.keys12 []
       (Sample.kid1, "videouhd2") Sample.w0
     = (ParserError
          (MsgStr "Invalid preset rule. Allowed values are: audio, video, video_sd, video_hd, video_uhd1, video_uhd2"),
        Sample.w0).
Proof.
  split.
  - exact (proj1 (@preset_names Sample.externals Sample.keys12 []
                    Sample.kid1 "video_hd" Sample.u1 Sample.w0 eq_refl
                    u1_in_keys12)).
  - exact (proj1 (@preset_names Sample.externals Sample.keys12 []
                    Sample.kid1 "videouhd2" Sample.u1 Sample.w0 eq_refl
                    u1_in_keys12)).
Defined.

(** C1 on the script.  Two keys, Widevine, a [video_hd] preset rule on the
    first key and a custom [audio] rule on the second: the run ends in an
    uncaught exception inside the custom rule, ValueError for the rule text
    [audio] and KeyError for a text of the documented shape, after the one
    Widevine call and before any document is made. *)
Theorem end_to_end_run :
  @main Sample.externals
    (Sample.cmd [Sample.key1; Sample.key2] true false None
       (Some [(Sample.kid2, "audio")]) (Some [(Sample.kid1, "video_hd")]))
    Sample.w0
  = (Raised ValueError,
     mkWorld [WidevineGenerate [Sample.u1; Sample.u2] None None 1] [])
  /\ @main Sample.externals
       (Sample.cmd [Sample.key1; Sample.key2] true false None
          (Some [(Sample.kid2, "audio:codec=aac")])
          (Some [(Sample.kid1, "video_hd")]))
       Sample.w0
     = (Raised (KeyError "audio"),
        mkWorld [WidevineGenerate [Sample.u1; Sample.u2] None None 1] []).
Proof. split; vm_compute; reflexivity. Qed.

(** C4 on the script.  The custom rule of the docstring, on the key of the
    key list: the filters are split and nothing is recorded; the dictionary
    is empty at the end, no usage rule is appended, and [main] exits. *)
Theorem docstring_rule_run :
  @custom_rule Sample.externals Sample.keys12
    (Sample.kid1, Sample.docstring_rule) Sample.w0
  = (Ret ∅, Sample.w0)
  /\ @main_body Sample.externals
       (Sample.cmd [Sample.key1; Sample.key2] false false None
          (Some [(Sample.kid1, Sample.docstring_rule)]) None)
       Sample.w0
     = (Ret (Sample.keys12, [], []), Sample.w0)
  /\ @main Sample.externals
       (Sample.cmd [Sample.key1; Sample.key2] false false None
          (Some [(Sample.kid1, Sample.docstring_rule)]) None)
       Sample.w0
     = (Exit 0, Sample.w0).
Proof. repeat split; vm_compute; reflexivity. Qed.

(** ** Splitting, joining and the codecs *)

Lemma split_single (sep : ascii) (s p : string) :
  Py.split sep s = [p] <-> p = s /\ Py.count sep s = 0.
Proof.
  revert p. induction s as [|c s IH]; intros p; simpl.
  - split; [intros Heq; inversion Heq; now split | intros [-> _]; reflexivity].
  - destruct (Ascii.eqb c sep) eqn:Hc.
    + split; [intros Heq | intros [_ Hn]; discriminate].
      inversion Heq as [[Hp Hs]].
      destruct s; simpl in Hs; [discriminate|].
      destruct (Ascii.eqb a sep); [discriminate|].
      destruct (Py.split sep s); discriminate.
    + simpl. destruct (Py.split sep s) as [|q qs] eqn:Hs.
      * pose proof (split_length sep s) as Hl. rewrite Hs in Hl. discriminate.
      * split.
        -- intros Heq. inversion Heq; subst.
           destruct (proj1 (IH q) eq_refl) as [-> Hn]. now split.
        -- intros [-> Hn].
           pose proof (proj2 (IH s) (conj eq_refl Hn)) as Heq.
           now inversion Heq.
Qed.

Lemma split_pair (sep : ascii) (s t p : string) :
  Py.unpack2 (Py.split sep s) = Some (t, p)
  <-> s = (t ++ String sep p)%string
      /\ Py.count sep t = 0 /\ Py.count sep p = 0.
Proof.
  revert t. induction s as [|c s IH]; intros t; simpl.
  - split; [discriminate|]. intros [Heq _]. destruct t; discriminate.
  - destruct (Ascii.eqb c sep) eqn:Hc.
    + apply Ascii.eqb_eq in Hc. subst c. split.
      * intros Hu.
        destruct (Py.split sep s) as [|q [|q' qs]] eqn:Hs; try discriminate.
        inversion Hu; subst.
        apply split_single in Hs as [-> Hn]. now repeat split.
      * intros (Heq & Ht & Hp). destruct t as [|c' t]; simpl in *.
        -- inversion Heq; subst.
           now rewrite (proj2 (split_single sep p p) (conj eq_refl Hp)).
        -- inversion Heq; subst. rewrite Ascii.eqb_refl in Ht. discriminate.
    + destruct (Py.split sep s) as [|q qs] eqn:Hs.
      * pose proof (split_length sep s) as Hl. rewrite Hs in Hl. discriminate.
      * split.
        -- intros Hu. destruct qs as [|q' [|q'' qs]]; try discriminate.
           inversion Hu; subst.
           destruct (proj1 (IH q) eq_refl) as (-> & Ht & Hp).
           simpl. rewrite Hc. now repeat split.
        -- intros (Heq & Ht & Hp). destruct t as [|c' t]; simpl in *.
           ++ inversion Heq; subst. rewrite Ascii.eqb_refl in Hc. discriminate.
           ++ inversion Heq; subst. rewrite Hc in Ht. simpl in Ht.
              pose proof (proj2 (IH t) (conj eq_refl (conj Ht Hp))) as Hu.
              destruct qs as [|q' [|q'' qs]]; try discriminate.
              now inversion Hu.
Qed.

Lemma b64encode_length_le (n : nat) (bs : Py.bytes) :
  length bs <= n -> length (Py.b64encode bs) = 4 * ((length bs + 2) / 3).
Proof.
  revert bs. induction n as [|n IH]; intros bs Hle.
  - destruct bs; [reflexivity | simpl in Hle; lia].
  - destruct bs as [|a [|b [|c rest]]]; try reflexivity.
    cbn [Py.b64encode length]. rewrite IH by (simpl in Hle; lia).
    replace (S (S (S (length rest))) + 2) with (length rest + 2 + 1 * 3) by lia.
    rewrite Nat.div_add by lia. lia.
Qed.

(** The base64 text of n bytes has four characters for every three bytes,
    the last group rounded up. *)
Lemma b64encode_length (bs : Py.bytes) :
  length (Py.b64encode bs) = 4 * ((length bs + 2) / 3).
Proof. now apply (b64encode_length_le (length bs)). Qed.

Lemma b16decode_Ok_inv (s : string) (raw : Py.bytes) :
  Py.b16decode s = Ok raw ->
  forallb Py.is_b16 (Py.chars s) = true
  /\ Py.unhexlify (Py.chars s) = Some raw.
Proof.
  unfold Py.b16decode.
  destruct (forallb Py.is_ascii (Py.chars s)); simpl; [|discriminate].
  destruct (forallb Py.is_b16 (Py.chars s)); simpl; [|discriminate].
  destruct (Py.unhexlify (Py.chars s)) as [bs|]; [|discriminate].
  intros Heq. inversion Heq. now split.
Qed.

Lemma unhexlify_length (l : list ascii) (raw : Py.bytes) :
  Py.unhexlify l = Some raw -> length l = 2 * length raw.
Proof.
  revert l raw. fix IH 1. intros l raw.
  destruct l as [|h [|d rest]]; simpl.
  - intros Heq. now inversion Heq.
  - discriminate.
  - destruct (Py.b16_value h), (Py.b16_value d); try discriminate.
    destruct (Py.unhexlify rest) as [bs|] eqn:Hrest; [|discriminate].
    intros Heq. inversion Heq; subst. simpl.
    rewrite (IH rest bs Hrest). lia.
Qed.

(** A hexadecimal digit is written back as the character it was read
    from. *)
Lemma hex_digit_b16_value (c : ascii) (x : N) :
  Py.b16_value c = Some x ->
  (x < 16)%N /\ Py.hex_digit x = byte_of_ascii c.
Proof.
  destruct c as [[] [] [] [] [] [] [] []]; vm_compute; intros Heq;
    try discriminate; inversion Heq; subst; split; reflexivity.
Qed.

Lemma to_N_byte_of_N (n : N) : (n < 256)%N -> Byte.to_N (Py.byte_of_N n) = n.
Proof.
  intros Hn. unfold Py.byte_of_N.
  destruct (Byte.of_N n) as [b|] eqn:Hb.
  - now apply Byte.to_of_N.
  - apply Byte.of_N_None_iff in Hb. lia.
Qed.

Lemma b16encode_unhexlify (l : list ascii) (raw : Py.bytes) :
  Py.unhexlify l = Some raw -> Py.b16encode raw = map byte_of_ascii l.
Proof.
  revert l raw. fix IH 1. intros l raw.
  destruct l as [|h [|d rest]]; simpl.
  - intros Heq. now inversion Heq.
  - discriminate.
  - destruct (Py.b16_value h) as [x|] eqn:Hx; [|discriminate].
    destruct (Py.b16_value d) as [y|] eqn:Hy; [|discriminate].
    destruct (Py.unhexlify rest) as [bs|] eqn:Hrest; [|discriminate].
    intros Heq. inversion Heq; subst.
    apply hex_digit_b16_value in Hx as [Hx16 Hxc].
    apply hex_digit_b16_value in Hy as [Hy16 Hyc].
    unfold Py.b16encode. cbn [flat_map]. cbv zeta.
    rewrite to_N_byte_of_N by lia.
    replace ((16 * x + y) / 16)%N with x by
      (symmetry; rewrite N.mul_comm, N.div_add_l, N.div_small by lia; lia).
    replace ((16 * x + y) mod 16)%N with y by
      (symmetry; rewrite N.add_comm, N.mul_comm, N.Div0.mod_add, N.mod_small
         by lia; lia).
    rewrite Hxc, Hyc. simpl. f_equal. f_equal.
    exact (IH rest bs Hrest).
Qed.

(** [b16encode] undoes [b16decode]: the text that decoded is the text that
    comes back. *)
Lemma b16_round_trip (s : string) (raw : Py.bytes) :
  Py.b16decode s = Ok raw -> Py.b16encode raw = Py.bytes_of_string s.
Proof.
  intros Hdec. apply b16decode_Ok_inv in Hdec as [_ Hun].
  now apply b16encode_unhexlify.
Qed.

Lemma b16_no_colon (l : list ascii) :
  forallb Py.is_b16 l = true ->
  Py.count ":" (string_of_list_ascii l) = 0.
Proof.
  induction l as [|c l IH]; simpl; [reflexivity|].
  intros Hall. apply andb_true_iff in Hall as [Hc Hl].
  rewrite (IH Hl).
  destruct (Ascii.eqb c ":") eqn:Heq; [|reflexivity].
  apply Ascii.eqb_eq in Heq. subst c. discriminate.
Qed.

(** ** Which key specs are accepted, and what is stored *)

Section AcceptedKeys.

Context `{Externals}.

Lemma parse_key_key_of (key : string) (c : ContentKey) :
  parse_key key = Ok c <-> key_of key c.
Proof.
  unfold parse_key, key_of. split.
  - destruct (Py.unpack2 (Py.split ":" key)) as [[kt ct]|] eqn:Hsplit;
      [|discriminate].
    apply split_pair in Hsplit as (Hkey & Hkt & Hct).
    destruct (String.length kt =? 32)%nat eqn:Hlk; simpl; [|discriminate].
    destruct (String.length ct =? 32)%nat eqn:Hlc; simpl; [|discriminate].
    destruct (Py.b16decode ct) as [raw|e] eqn:Hraw; simpl; [|discriminate].
    unfold new_ContentKey.
    destruct (UUID kt) as [u|] eqn:Hu; [|discriminate].
    intros Heq. inversion Heq; subst c. simpl.
    exists kt, ct, raw. apply Nat.eqb_eq in Hlk, Hlc. now repeat split.
  - intros (kt & ct & raw & Hkey & Hkt & Hlk & Hlc & Hraw & Hu & Hcek).
    assert (Hct : Py.count ":" ct = 0).
    { destruct (b16decode_Ok_inv _ _ Hraw) as [Hall _].
      apply b16_no_colon in Hall. unfold Py.chars in Hall.
      now rewrite string_of_list_ascii_of_string in Hall. }
    rewrite (proj2 (split_pair ":" key kt ct) (conj Hkey (conj Hkt Hct))).
    rewrite Hlk, Hlc, Hraw. simpl. unfold new_ContentKey. rewrite Hu.
    destruct c as [u b]. simpl in *. now subst.
Qed.

Lemma parse_keys_from_Forall2 (ks : list string) (l acc : list ContentKey) :
  Forall2 (fun k c => parse_key k = Ok c) ks l ->
  parse_keys_from ks acc = Ok (acc ++ l).
Proof.
  intros Hall. revert acc.
  induction Hall as [|k c ks l Hk _ IH]; intros acc; simpl.
  - now rewrite app_nil_r.
  - rewrite Hk. simpl. rewrite IH. now rewrite <- app_assoc.
Qed.

Lemma parse_keys_Ok_inv (ks : list string) (l : list ContentKey) :
  parse_keys ks = Ok l -> Forall2 (fun k c => parse_key k = Ok c) ks l.
Proof.
  unfold parse_keys. intros Hrun.
  destruct (parse_keys_from_spec ks [])
    as [(l' & Hl' & Hall) | (pre & k & post & e & _ & _ & _ & Herr)].
  - rewrite Hl' in Hrun. inversion Hrun; subst. exact Hall.
  - rewrite Herr in Hrun. discriminate.
Qed.

Lemma parse_keys_Ok_key_of (ks : list string) (l : list ContentKey) :
  parse_keys ks = Ok l -> Forall2 key_of ks l.
Proof.
  intros Hrun. apply parse_keys_Ok_inv in Hrun.
  eapply Forall2_impl; [exact Hrun|].
  intros k c Hk. now apply parse_key_key_of.
Qed.

Lemma key_of_parse_keys (ks : list string) (l : list ContentKey) :
  Forall2 key_of ks l -> parse_keys ks = Ok l.
Proof.
  intros Hall. unfold parse_keys.
  apply (parse_keys_from_Forall2 ks l []).
  eapply Forall2_impl; [exact Hall|].
  intros k c Hk. now apply parse_key_key_of.
Qed.

(** X1.  [parse_keys] returns a key list exactly when every spec of the
    batch is 32 characters of key id that [uuid.UUID] reads, one colon, and
    32 characters over [0-9A-F]; the list then holds, in input order, the
    UUID of each key id and the base64 text of each decoded content key. *)
Theorem parse_keys_accepts (ks : list string) (l : list ContentKey) :
  parse_keys ks = Ok l <-> Forall2 key_of ks l.
Proof.
  split.
  - apply parse_keys_Ok_key_of.
  - apply key_of_parse_keys.
Qed.

Lemma key_of_cek_length (key : string) (c : ContentKey) :
  key_of key c -> length (cek c) = 24.
Proof.
  intros (kt & ct & raw & _ & _ & _ & Hlc & Hraw & _ & Hcek).
  destruct (b16decode_Ok_inv _ _ Hraw) as [_ Hun].
  apply unhexlify_length in Hun. rewrite chars_length, Hlc in Hun.
  rewrite Hcek, b64encode_length.
  replace (length raw) with 16 by lia. reflexivity.
Qed.

(** X2.  Every content key [parse_keys] stores is 24 bytes long: the base64
    text of the 16 bytes the 32 hexadecimal digits decode to. *)
Theorem parsed_cek_is_24_bytes (ks : list string) (l : list ContentKey) :
  parse_keys ks = Ok l -> Forall (fun c => length (cek c) = 24) l.
Proof.
  intros Hrun. apply parse_keys_Ok_key_of in Hrun.
  induction Hrun as [|k c ks l Hk _ IH]; constructor; [|exact IH].
  now apply (key_of_cek_length k).
Qed.

(** X3.  The key handed to the PlayReady generator is the content key text
    of the command line: base-16 decoding, base64 encoding, base64 decoding
    and base-16 encoding give back the 32 digits, provided [b64decode]
    undoes [b64encode] on the decoded key. *)
Theorem playready_key_is_the_cek_text (key kt ct : string) (c : ContentKey) :
  parse_key key = Ok c ->
  Py.split ":" key = [kt; ct] ->
  (forall raw, Py.b16decode ct = Ok raw ->
               b64decode (Py.b64encode raw) = Ok raw) ->
  playready_key c = Ok (kid c, Py.bytes_of_string ct).
Proof.
  intros Hrun Hsplit Hinv. unfold parse_key in Hrun.
  rewrite Hsplit in Hrun. simpl in Hrun.
  destruct (String.length kt =? 32)%nat; simpl in Hrun; [|discriminate].
  destruct (String.length ct =? 32)%nat; simpl in Hrun; [|discriminate].
  destruct (Py.b16decode ct) as [raw|e] eqn:Hraw; simpl in Hrun;
    [|discriminate].
  unfold new_ContentKey in Hrun.
  destruct (UUID kt) as [u|]; [|discriminate].
  inversion Hrun; subst c. unfold playready_key. simpl.
  rewrite (Hinv raw eq_refl). now rewrite (b16_round_trip ct raw Hraw).
Qed.

End AcceptedKeys.

(** ** The stages of [main], one by one *)

Section Stages.

Context `{Externals}.

Lemma widevine_stage_run (a : Args) (ks : list ContentKey)
    (drm : list DRMSystem) (w : world) :
  widevine_stage a ks drm w
  = if widevine a then
      let w1 :=
        mkWorld
          (calls w ++ [WidevineGenerate (map kid ks) (widevine_provider a)
                         (widevine_content_id a) (widevine_pssh_version a)])
          (output w) in
      match widevine_generate_pssh (map kid ks) (widevine_provider a)
              (widevine_content_id a) (widevine_pssh_version a) with
      | Ok p => (Ret (drm ++ entries WIDEVINE_SYSTEM_ID p ks), w1)
      | Raise e => (Raised e, w1)
      end
    else (Ret drm, w).
Proof.
  unfold widevine_stage, call_widevine, entries.
  destruct (widevine a); [|reflexivity].
  unfold bind at 1. unfold bind at 1. unfold log_call at 1. cbv zeta.
  destruct (widevine_generate_pssh _ _ _ _) as [p|e]; simpl; [|reflexivity].
  now rewrite for_each_append.
Qed.

Lemma playready_stage_run (a : Args) (ks : list ContentKey)
    (drm : list DRMSystem) (w : world) :
  playready_stage a ks drm w
  = if playready a then
      match comprehension playready_key ks with
      | Raise e => (Raised e, w)
      | Ok pks =>
          let w1 :=
            mkWorld
              (calls w ++ [PlayreadyGenerate pks (playready_la_url a)
                             (playready_algorithm a)
                             (playready_pssh_version a)])
              (output w) in
          match playready_generate_pssh pks (playready_la_url a)
                  (playready_algorithm a) (playready_pssh_version a) with
          | Ok p => (Ret (drm ++ entries PLAYREADY_SYSTEM_ID p ks), w1)
          | Raise e => (Raised e, w1)
          end
      end
    else (Ret drm, w).
Proof.
  unfold playready_stage, call_playready, entries.
  destruct (playready a); [|reflexivity].
  unfold bind at 1.
  destruct (comprehension playready_key ks) as [pks|e]; simpl; [|reflexivity].
  unfold bind at 1. unfold bind at 1. unfold log_call at 1. cbv zeta.
  destruct (playready_generate_pssh _ _ _ _) as [p|e]; simpl; [|reflexivity].
  now rewrite for_each_append.
Qed.

Lemma entries_length (sid : system_id) (p : Py.bytes) (ks : list ContentKey) :
  length (entries sid p ks) = length ks.
Proof. unfold entries. apply length_map. Qed.

Lemma entries_kids (sid : system_id) (p : Py.bytes) (ks : list ContentKey) :
  Forall (fun d => drm_kid d ∈ map kid ks) (entries sid p ks).
Proof.
  unfold entries. apply Forall_forall. intros d Hd.
  apply list_elem_of_In, in_map_iff in Hd as (k & <- & Hk). simpl.
  apply list_elem_of_In, in_map. exact Hk.
Qed.

Lemma preset_rule_run (ks : list ContentKey) (rules : list UsageRule)
    (rule : string * string) (w : world) :
  preset_rule ks rules rule w
  = (match UUID (fst rule) with
     | Some u =>
         if bool_decide (u ∈ map kid ks) then
           match spec_preset_filters (snd rule) with
           | Some fs => Ret (rules ++ [mkUsageRule u fs])
           | None =>
               ParserError
                 (MsgStr "Invalid preset rule. Allowed values are: audio, video, video_sd, video_hd, video_uhd1, video_uhd2")
           end
         else ParserError (MsgStr "Invalid key ID in preset usage rule.")
     | None => ParserError (MsgStr "Invalid key ID in preset usage rule.")
     end, w).
Proof.
  unfold preset_rule, rule_kid_of, bind.
  destruct (UUID (fst rule)) as [u|]; [|reflexivity].
  case_bool_decide; simpl; [|reflexivity].
  unfold spec_preset_filters. repeat case_decide; reflexivity.
Qed.

Lemma preset_loop_run (ks : list ContentKey) (l : list (string * string))
    (rules rules' : list UsageRule) (w w' : world) :
  for_each (preset_rule ks) l rules w = (Ret rules', w')
  <-> w' = w /\ exists new, rules' = rules ++ new
                            /\ Forall2 (preset_of ks) l new.
Proof.
  revert rules. induction l as [|rule l IH]; intros rules; simpl.
  - unfold ret. split.
    + intros Heq. inversion Heq; subst. split; [reflexivity|].
      exists []. split; [now rewrite app_nil_r | constructor].
    + intros (-> & new & -> & Hall). inversion Hall. now rewrite app_nil_r.
  - unfold bind. rewrite preset_rule_run. unfold preset_of at 1.
    destruct (UUID (fst rule)) as [u|] eqn:Hu.
    + case_bool_decide as Hin.
      * destruct (spec_preset_filters (snd rule)) as [fs|] eqn:Hfs.
        -- rewrite IH. split.
           ++ intros (-> & new & -> & Hall). split; [reflexivity|].
              exists (mkUsageRule u fs :: new). split.
              ** now rewrite <- app_assoc.
              ** constructor; [|exact Hall]. now repeat split.
           ++ intros (-> & new & -> & Hall). split; [reflexivity|].
              inversion Hall as [|? r ? new' (Hu' & _ & Hfs') Hrest]; subst.
              exists new'. split; [|exact Hrest].
              rewrite <- app_assoc. simpl. destruct r as [u' fs']. simpl in *.
              congruence.
        -- split; [discriminate|].
           intros (_ & new & _ & Hall).
           inversion Hall as [|? r ? new' (_ & _ & Hfs') Hrest]; subst.
           congruence.
      * split; [discriminate|].
        intros (_ & new & _ & Hall).
        inversion Hall as [|? r ? new' (Hu' & Hin' & _) Hrest]; subst.
        unfold preset_of in *. congruence.
    + split; [discriminate|].
      intros (_ & new & _ & Hall).
      inversion Hall as [|? r ? new' (Hu' & _ & _) Hrest]; subst.
      congruence.
Qed.

End Stages.

(** ** Custom rules *)

Lemma unpack2_split_Some (sep : ascii) (s : string) :
  Py.count sep s = 1 <-> exists t p, Py.unpack2 (Py.split sep s) = Some (t, p).
Proof.
  split.
  - intros Hc. destruct (Py.unpack2 (Py.split sep s)) as [[t p]|] eqn:Hu.
    + now exists t, p.
    + apply unpack2_split_None in Hu. contradiction.
  - intros (t & p & Hu).
    destruct (Nat.eq_dec (Py.count sep s) 1) as [Hc|Hc]; [exact Hc|].
    apply unpack2_split_None in Hc. congruence.
Qed.

Section CustomRules.

Context `{Externals}.

Lemma custom_filter_Ok (f : string) (d : gmap string rule_filter) :
  custom_filter ∅ f = Ok d <-> d = ∅ /\ passes_filter f.
Proof.
  unfold custom_filter, passes_filter. split.
  - destruct (Py.unpack2 (Py.split ":" f)) as [[t p]|] eqn:Hf; [|discriminate].
    destruct (Py.unpack2 (Py.split "=" p)) as [[pt pv]|] eqn:Hp; [|discriminate].
    case_decide as Ht.
    + unfold getitem. rewrite lookup_empty. discriminate.
    + intros Heq. inversion Heq; subst. split; [reflexivity|].
      apply split_pair in Hf as (Hf & Hct & Hcp).
      exists t, p. repeat split; try assumption.
      apply unpack2_split_Some. now exists pt, pv.
  - intros (-> & t & p & Hf & Hct & Hcp & Heq & Ht).
    rewrite (proj2 (split_pair ":" f t p) (conj Hf (conj Hct Hcp))).
    apply unpack2_split_Some in Heq as (pt & pv & ->).
    now rewrite decide_False.
Qed.

Lemma custom_filter_Raise (f : string) (e : exn) :
  custom_filter ∅ f = Raise e -> e = ValueError \/ e = KeyError "audio".
Proof.
  unfold custom_filter.
  destruct (Py.unpack2 (Py.split ":" f)) as [[t p]|];
    [|intros Heq; inversion Heq; now left].
  destruct (Py.unpack2 (Py.split "=" p)) as [[pt pv]|];
    [|intros Heq; inversion Heq; now left].
  case_decide; [|discriminate].
  unfold getitem. rewrite lookup_empty. intros Heq. inversion Heq. now right.
Qed.

Lemma custom_filters_run (fs : list string) :
  (forall d, custom_filters fs ∅ = Ok d <-> d = ∅ /\ Forall passes_filter fs)
  /\ (forall e, custom_filters fs ∅ = Raise e ->
                e = ValueError \/ e = KeyError "audio").
Proof.
  induction fs as [|f fs [IHok IHerr]]; simpl.
  - split; [|discriminate]. intros d. split.
    + intros Heq. inversion Heq. now split.
    + now intros [-> _].
  - destruct (custom_filter ∅ f) as [d0|e0] eqn:Hf.
    + apply custom_filter_Ok in Hf as [-> Hf]. split; [|exact IHerr].
      intros d. rewrite IHok. split.
      * intros [-> Hall]. split; [reflexivity | now constructor].
      * intros [-> Hall]. split; [reflexivity | now inversion Hall].
    + split.
      * intros d. split; [discriminate|]. intros [-> Hall].
        inversion Hall as [|? ? Hpass _]; subst.
        pose proof (proj2 (custom_filter_Ok f ∅) (conj eq_refl Hpass)).
        congruence.
      * intros e Heq. inversion Heq; subst.
        now apply custom_filter_Raise in Hf.
Qed.

(** X4.  The loop over the filters of a custom rule never records a filter:
    it ends, with the empty dictionary, exactly when every comma-separated
    filter is a type other than [audio], one colon, and a parameter with
    exactly one equals sign; otherwise it raises ValueError (a filter of
    another shape) or KeyError [audio] (a filter of type [audio]). *)
Theorem custom_filters_accepts (fs : list string) :
  ((exists d, custom_filters fs ∅ = Ok d) <-> Forall passes_filter fs)
  /\ (forall d, custom_filters fs ∅ = Ok d -> d = ∅)
  /\ (forall e, custom_filters fs ∅ = Raise e ->
                e = ValueError \/ e = KeyError "audio").
Proof.
  destruct (custom_filters_run fs) as [Hok Herr].
  split; [split|split].
  - intros (d & Hd). now apply Hok in Hd.
  - intros Hall. exists ∅. now apply Hok.
  - intros d Hd. now apply Hok in Hd.
  - exact Herr.
Qed.

Lemma custom_rule_run (ks : list ContentKey) (rule : string * string)
    (d : gmap string rule_filter) (w w' : world) :
  custom_rule ks rule w = (Ret d, w')
  <-> w' = w /\ d = ∅ /\ passes_rule ks rule.
Proof.
  unfold custom_rule, passes_rule, bind. split.
  - destruct (rule_kid_of ks (fst rule) _ w) as [[u|e|m|n] w1] eqn:Hk;
      try discriminate.
    apply rule_kid_of_Ret_inv in Hk as (Hu & Hin & ->).
    destruct (custom_filters (Py.split "," (snd rule)) ∅) as [d0|e0] eqn:Hfs;
      simpl; [|discriminate].
    unfold ret. intros Heq. inversion Heq; subst.
    apply (proj1 (custom_filters_run _)) in Hfs as [-> Hall].
    repeat split; try assumption. now exists u.
  - intros (-> & -> & (u & Hu & Hin) & Hall).
    rewrite (rule_kid_of_known ks _ _ u w Hu Hin).
    now rewrite (proj2 (proj1 (custom_filters_run _) ∅)
                   (conj eq_refl Hall)).
Qed.

Lemma custom_loop_run (ks : list ContentKey) (l : list (string * string))
    (w w' : world) :
  for_each (fun _ rule => bind (custom_rule ks rule) (fun _ => ret tt)) l tt w
  = (Ret tt, w')
  <-> w' = w /\ Forall (passes_rule ks) l.
Proof.
  induction l as [|rule l IH]; simpl.
  - unfold ret. split.
    + intros Heq. inversion Heq. now split.
    + now intros [-> _].
  - unfold bind at 1. unfold bind at 1.
    destruct (custom_rule ks rule w) as [[d|e|m|n] w1] eqn:Hr.
    + apply custom_rule_run in Hr as (-> & -> & Hpass).
      unfold ret at 1. rewrite IH. split.
      * intros [-> Hall]. split; [reflexivity | now constructor].
      * intros [-> Hall]. split; [reflexivity | now inversion Hall].
    + split; [discriminate|]. intros [-> Hall].
      inversion Hall as [|? ? Hpass _]; subst.
      pose proof (proj2 (custom_rule_run ks rule ∅ w w)
                    (conj eq_refl (conj eq_refl Hpass))). congruence.
    + split; [discriminate|]. intros [-> Hall].
      inversion Hall as [|? ? Hpass _]; subst.
      pose proof (proj2 (custom_rule_run ks rule ∅ w w)
                    (conj eq_refl (conj eq_refl Hpass))). congruence.
    + split; [discriminate|]. intros [-> Hall].
      inversion Hall as [|? ? Hpass _]; subst.
      pose proof (proj2 (custom_rule_run ks rule ∅ w w)
                    (conj eq_refl (conj eq_refl Hpass))). congruence.
Qed.

Lemma custom_stage_run (a : Args) (ks : list ContentKey) (w w' : world) :
  custom_stage a ks w = (Ret tt, w')
  <-> w' = w /\ Forall (passes_rule ks) (items (custom_usage_rules a)).
Proof.
  unfold custom_stage.
  destruct (custom_usage_rules a) as [[|rule l]|]; simpl truthy; simpl items.
  - unfold ret. split; [intros Heq; inversion Heq; now split|].
    now intros [-> _].
  - apply custom_loop_run.
  - unfold ret. split; [intros Heq; inversion Heq; now split|].
    now intros [-> _].
Qed.

Lemma preset_stage_run (a : Args) (ks : list ContentKey)
    (rules : list UsageRule) (w w' : world) :
  preset_stage a ks [] w = (Ret rules, w')
  <-> w' = w /\ Forall2 (preset_of ks) (items (preset_usage_rules a)) rules.
Proof.
  unfold preset_stage.
  destruct (preset_usage_rules a) as [[|rule l]|]; simpl truthy; simpl items.
  - unfold ret. split.
    + intros Heq. inversion Heq. split; [reflexivity | constructor].
    + intros [-> Hall]. now inversion Hall.
  - etransitivity; [apply preset_loop_run|]. split.
    + intros (-> & new & -> & Hall). now split.
    + intros [-> Hall]. split; [reflexivity|]. now exists rules.
  - unfold ret. split.
    + intros Heq. inversion Heq. split; [reflexivity | constructor].
    + intros [-> Hall]. now inversion Hall.
Qed.

End CustomRules.

(** ** Parser errors through the monad *)

Lemma parser_errors_ret {A : Type} (P : message -> Prop) (x : A) :
  parser_errors P (ret x).
Proof. intros w m w'. discriminate. Qed.

Lemma parser_errors_raise {A : Type} (P : message -> Prop) (e : exn) :
  parser_errors P (@raise A e).
Proof. intros w m w'. discriminate. Qed.

Lemma parser_errors_lift {A : Type} (P : message -> Prop) (r : result A) :
  parser_errors P (lift r).
Proof. destruct r; [apply parser_errors_ret | apply parser_errors_raise]. Qed.

Lemma parser_errors_log_call (P : message -> Prop) (c : call) :
  parser_errors P (log_call c).
Proof. intros w m w'. discriminate. Qed.

Lemma parser_errors_error {A : Type} (P : message -> Prop) (m : message) :
  P m -> parser_errors P (@parser_error A m).
Proof. intros Hm w m' w' Heq. inversion Heq; subst. exact Hm. Qed.

Lemma parser_errors_bind {A B : Type} (P : message -> Prop) (c : M A)
    (k : A -> M B) :
  parser_errors P c -> (forall x, parser_errors P (k x)) ->
  parser_errors P (bind c k).
Proof.
  intros Hc Hk w m w' Hrun. unfold bind in Hrun.
  destruct (c w) as [[x|e|m0|n] w1] eqn:Hcw; try discriminate.
  - exact (Hk x w1 m w' Hrun).
  - inversion Hrun; subst. exact (Hc w m w' Hcw).
Qed.

Lemma parser_errors_for_each {A S : Type} (P : message -> Prop)
    (body : S -> A -> M S) (l : list A) :
  (forall s x, parser_errors P (body s x)) ->
  forall s, parser_errors P (for_each body l s).
Proof.
  intros Hbody. induction l as [|x l IH]; intros s; simpl.
  - apply parser_errors_ret.
  - apply parser_errors_bind; [apply Hbody | exact IH].
Qed.

Create HintDb perr.
#[local] Hint Resolve parser_errors_ret parser_errors_raise parser_errors_lift
  parser_errors_log_call parser_errors_error parser_errors_bind
  parser_errors_for_each : perr.

(** ** Whole runs of [main] *)

Section WholeRuns.

Context `{Externals}.

Lemma set_log_level_Ret (level : string) (w w' : world) :
  set_log_level level w = (Ret tt, w')
  <-> Py.checkLevel level = true /\ w' = w.
Proof.
  unfold set_log_level. destruct (Py.checkLevel level).
  - unfold ret. split; [intros Heq; inversion Heq; now split|].
    now intros [_ ->].
  - split; [discriminate | intros [Hf _]; discriminate].
Qed.

Lemma check_required_Ret (a : Args) (w w' : world) :
  check_required a w = (Ret tt, w')
  <-> (playready a = true -> playready_la_url a <> None) /\ w' = w.
Proof.
  unfold check_required. destruct (playready a); simpl.
  - case_bool_decide as Hurl.
    + split; [discriminate|]. intros [Hne _]. now destruct (Hne eq_refl).
    + unfold ret. split; [intros Heq; inversion Heq; now split|].
      now intros [_ ->].
  - unfold ret. split; [intros Heq; inversion Heq; split; [discriminate|reflexivity]|].
    now intros [_ ->].
Qed.

Lemma keys_stage_Ret (a : Args) (ks : list ContentKey) (w w' : world) :
  keys_stage a w = (Ret ks, w') <-> parse_keys (keys a) = Ok ks /\ w' = w.
Proof.
  unfold keys_stage. destruct (parse_keys (keys a)) as [l|e].
  - unfold ret. split; [intros Heq; inversion Heq; now split|].
    intros [Heq ->]. now inversion Heq.
  - split; [discriminate | intros [Hf _]; discriminate].
Qed.

Lemma main_body_after_keys (a : Args) (ks : list ContentKey) (w : world) :
  Py.checkLevel (log_level a) = true ->
  (playready a = true -> playready_la_url a <> None) ->
  parse_keys (keys a) = Ok ks ->
  main_body a w = after_keys a ks w.
Proof.
  intros Hlevel Hreq Hkeys. unfold main_body, after_keys.
  unfold bind at 1.
  rewrite (proj2 (set_log_level_Ret _ w w) (conj Hlevel eq_refl)).
  unfold bind at 1.
  rewrite (proj2 (check_required_Ret a w w) (conj Hreq eq_refl)).
  unfold bind at 1.
  now rewrite (proj2 (keys_stage_Ret a ks w w) (conj Hkeys eq_refl)).
Qed.

Lemma main_body_Ret_inv (a : Args) (w w' : world) (ks : list ContentKey)
    (drm : list DRMSystem) (rules : list UsageRule) :
  main_body a w = (Ret (ks, drm, rules), w') ->
  Py.checkLevel (log_level a) = true
  /\ (playready a = true -> playready_la_url a <> None)
  /\ parse_keys (keys a) = Ok ks
  /\ drm_stage a ks w = (Ret drm, w')
  /\ preset_stage a ks [] w' = (Ret rules, w')
  /\ custom_stage a ks w' = (Ret tt, w').
Proof.
  intros Hrun. unfold main_body in Hrun.
  apply bind_Ret_inv in Hrun as ([] & w1 & Hlevel & Hrun).
  apply set_log_level_Ret in Hlevel as [Hlevel ->].
  apply bind_Ret_inv in Hrun as ([] & w2 & Hreq & Hrun).
  apply check_required_Ret in Hreq as [Hreq ->].
  apply bind_Ret_inv in Hrun as (ks0 & w3 & Hkeys & Hrun).
  apply keys_stage_Ret in Hkeys as [Hkeys ->].
  apply bind_Ret_inv in Hrun as (drm0 & w4 & Hdrm & Hrun).
  apply bind_Ret_inv in Hrun as (rules0 & w5 & Hpre & Hrun).
  apply bind_Ret_inv in Hrun as ([] & w6 & Hcus & Hrun).
  unfold ret in Hrun. inversion Hrun; subst.
  pose proof (proj1 (preset_stage_run _ _ _ _ _) Hpre) as [-> _].
  pose proof (proj1 (custom_stage_run _ _ _ _) Hcus) as [-> _].
  now repeat split.
Qed.

Lemma drm_stage_Ret_inv (a : Args) (ks : list ContentKey) (w w' : world)
    (drm : list DRMSystem) :
  drm_stage a ks w = (Ret drm, w') ->
  exists dw dp,
    drm = dw ++ dp
    /\ (if widevine a
        then exists p,
            widevine_generate_pssh (map kid ks) (widevine_provider a)
              (widevine_content_id a) (widevine_pssh_version a) = Ok p
            /\ dw = entries WIDEVINE_SYSTEM_ID p ks
        else dw = [])
    /\ (if playready a
        then exists pks p,
            comprehension playready_key ks = Ok pks
            /\ playready_generate_pssh pks (playready_la_url a)
                 (playready_algorithm a) (playready_pssh_version a) = Ok p
            /\ dp = entries PLAYREADY_SYSTEM_ID p ks
        else dp = []).
Proof.
  unfold drm_stage. intros Hrun.
  apply bind_Ret_inv in Hrun as (dw & w1 & Hw & Hp).
  rewrite widevine_stage_run in Hw. rewrite playready_stage_run in Hp.
  assert (Hdw : if widevine a
                then exists p,
                    widevine_generate_pssh (map kid ks) (widevine_provider a)
                      (widevine_content_id a) (widevine_pssh_version a) = Ok p
                    /\ dw = entries WIDEVINE_SYSTEM_ID p ks
                else dw = []).
  { destruct (widevine a).
    - cbv zeta in Hw.
      destruct (widevine_generate_pssh _ _ _ _) as [p|e]; [|discriminate].
      inversion Hw; subst. now exists p.
    - now inversion Hw. }
  destruct (playready a).
  - destruct (comprehension playready_key ks) as [pks|e]; [|discriminate].
    cbv zeta in Hp.
    destruct (playready_generate_pssh _ _ _ _) as [p|e] eqn:Hgen;
      [|discriminate].
    inversion Hp; subst.
    exists dw, (entries PLAYREADY_SYSTEM_ID p ks).
    repeat split; [exact Hdw|]. now exists pks, p.
  - inversion Hp; subst. exists drm, []. now rewrite app_nil_r.
Qed.

(** X5.  In a run that completes its stages, the key list is the parse of
    the [--key] options, every DRM entry carries the key id of a key of
    that list, and there are as many entries as keys for each enabled DRM
    system. *)
Theorem drm_entries_refer_to_keys (a : Args) (w w' : world)
    (ks : list ContentKey) (drm : list DRMSystem) (rules : list UsageRule) :
  main_body a w = (Ret (ks, drm, rules), w') ->
  parse_keys (keys a) = Ok ks
  /\ Forall (fun d => drm_kid d ∈ map kid ks) drm
  /\ length drm
     = ((if widevine a then 1 else 0) + (if playready a then 1 else 0))
       * length ks.
Proof.
  intros Hrun.
  apply main_body_Ret_inv in Hrun as (_ & _ & Hkeys & Hdrm & _).
  split; [exact Hkeys|].
  apply drm_stage_Ret_inv in Hdrm as (dw & dp & -> & Hw & Hp).
  rewrite Forall_app, length_app.
  destruct (widevine a), (playready a).
  - destruct Hw as (p & _ & ->). destruct Hp as (pks & q & _ & _ & ->).
    rewrite !entries_length. repeat split; try apply entries_kids. lia.
  - destruct Hw as (p & _ & ->). subst dp.
    rewrite entries_length.
    repeat split; try apply entries_kids; try constructor; simpl; lia.
  - subst dw. destruct Hp as (pks & q & _ & _ & ->).
    rewrite entries_length.
    repeat split; try apply entries_kids; try constructor; simpl; lia.
  - subst. repeat split; constructor.
Qed.

(** X6.  In a run that completes its stages, the usage rules are those of
    the [--usage_rule_preset] options, one per option and in their order:
    each has the key id of its option, which a key of the key list has, and
    the filters of the named preset.  Custom rules add nothing, and nothing
    stops two options from naming the same key. *)
Theorem usage_rules_are_the_presets (a : Args) (w w' : world)
    (ks : list ContentKey) (drm : list DRMSystem) (rules : list UsageRule) :
  main_body a w = (Ret (ks, drm, rules), w') ->
  Forall2 (preset_of ks) (items (preset_usage_rules a)) rules
  /\ length rules = length (items (preset_usage_rules a)).
Proof.
  intros Hrun.
  apply main_body_Ret_inv in Hrun as (_ & _ & _ & _ & Hpre & _).
  apply preset_stage_run in Hpre as [_ Hall].
  split; [exact Hall|]. symmetry. eapply Forall2_length, Hall.
Qed.

(** X7.  When the log level and the PlayReady options are in order, a key
    spec that [parse_keys] refuses ends [main] with a parser error that
    carries the exception, before any PSSH generator is called. *)
Theorem refused_key_is_a_parser_error (a : Args) (w : world) (e : exn) :
  Py.checkLevel (log_level a) = true ->
  (playready a = true -> playready_la_url a <> None) ->
  parse_keys (keys a) = Raise e ->
  main a w = (ParserError (MsgExn e), w).
Proof.
  intros Hlevel Hreq Hkeys. unfold main, main_body.
  unfold bind at 1. unfold bind at 1.
  rewrite (proj2 (set_log_level_Ret _ w w) (conj Hlevel eq_refl)).
  unfold bind at 1.
  rewrite (proj2 (check_required_Ret a w w) (conj Hreq eq_refl)).
  unfold bind at 1. unfold keys_stage. now rewrite Hkeys.
Qed.

(** X8.  An exception of a PSSH generator is caught by nobody.  When the
    Widevine generator raises, [main] ends with that exception after the
    one Widevine call, and the PlayReady generator is not called; when the
    PlayReady generator raises, [main] ends with that exception after the
    calls made so far. *)
Theorem generator_failure_is_uncaught (a : Args) (w : world)
    (ks : list ContentKey) (e : exn) :
  Py.checkLevel (log_level a) = true ->
  (playready a = true -> playready_la_url a <> None) ->
  parse_keys (keys a) = Ok ks ->
  (widevine a = true ->
   widevine_generate_pssh (map kid ks) (widevine_provider a)
     (widevine_content_id a) (widevine_pssh_version a) = Raise e ->
   main a w
   = (Raised e,
      mkWorld
        (calls w ++ [WidevineGenerate (map kid ks) (widevine_provider a)
                       (widevine_content_id a) (widevine_pssh_version a)])
        (output w)))
  /\ (forall pks,
        widevine a = false -> playready a = true ->
        comprehension playready_key ks = Ok pks ->
        playready_generate_pssh pks (playready_la_url a)
          (playready_algorithm a) (playready_pssh_version a) = Raise e ->
        main a w
        = (Raised e,
           mkWorld
             (calls w ++ [PlayreadyGenerate pks (playready_la_url a)
                            (playready_algorithm a)
                            (playready_pssh_version a)])
             (output w))).
Proof.
  intros Hlevel Hreq Hkeys. split.
  - intros Hw Hgen. unfold main. unfold bind at 1.
    rewrite (main_body_after_keys a ks w Hlevel Hreq Hkeys).
    unfold after_keys, drm_stage. unfold bind at 1. unfold bind at 1.
    rewrite widevine_stage_run, Hw. cbv zeta. now rewrite Hgen.
  - intros pks Hw Hp Hpks Hgen. unfold main. unfold bind at 1.
    rewrite (main_body_after_keys a ks w Hlevel Hreq Hkeys).
    unfold after_keys, drm_stage. unfold bind at 1. unfold bind at 1.
    rewrite widevine_stage_run, Hw.
    rewrite playready_stage_run, Hp, Hpks. cbv zeta. now rewrite Hgen.
Qed.

Lemma drm_stage_Ret_intro (a : Args) (ks : list ContentKey) (w : world) :
  (widevine a = true ->
   is_Ok (widevine_generate_pssh (map kid ks) (widevine_provider a)
            (widevine_content_id a) (widevine_pssh_version a))) ->
  (playready a = true ->
   exists pks,
     comprehension playready_key ks = Ok pks
     /\ is_Ok (playready_generate_pssh pks (playready_la_url a)
                 (playready_algorithm a) (playready_pssh_version a))) ->
  exists drm w', drm_stage a ks w = (Ret drm, w').
Proof.
  intros Hw Hp. unfold drm_stage, bind.
  rewrite widevine_stage_run.
  destruct (widevine a).
  - cbv zeta. specialize (Hw eq_refl).
    destruct (widevine_generate_pssh _ _ _ _) as [p|e]; [|contradiction].
    rewrite playready_stage_run. destruct (playready a); [|eauto].
    destruct (Hp eq_refl) as (pks & -> & Hgen). cbv zeta.
    destruct (playready_generate_pssh _ _ _ _) as [q|e]; [|contradiction].
    eauto.
  - rewrite playready_stage_run. destruct (playready a); [|eauto].
    destruct (Hp eq_refl) as (pks & -> & Hgen). cbv zeta.
    destruct (playready_generate_pssh _ _ _ _) as [q|e]; [|contradiction].
    eauto.
Qed.

Lemma main_Exit_inv (a : Args) (w w' : world) (n : Z) :
  main a w = (Exit n, w') ->
  n = 0%Z /\ exists st, main_body a w = (Ret st, w').
Proof.
  unfold main, bind, exit.
  destruct (quiet_main_body a w) as [_ Hexit].
  destruct (main_body a w) as [[st|e|m|k] w1]; simpl in *; try discriminate.
  - intros Heq. inversion Heq; subst. split; [reflexivity | now exists st].
  - now destruct (Hexit k).
Qed.

(** X9.  [main] ends in [exit(0)] exactly when: the log level is one
    [logging] knows; [--playready] comes with a licence URL; every key spec
    is accepted; each enabled PSSH generator answers (and, for PlayReady,
    every stored content key decodes); every preset option names a key of
    the key list and a preset of the table; and every custom rule names a
    key of the key list and only has filters that pass.  Every other run
    ends in a parser error or an uncaught exception. *)
Theorem main_exits_0_iff (a : Args) (w : world) :
  (exists w', main a w = (Exit 0, w'))
  <-> Py.checkLevel (log_level a) = true
      /\ (playready a = true -> playready_la_url a <> None)
      /\ exists ks,
          Forall2 key_of (keys a) ks
          /\ (widevine a = true ->
              is_Ok (widevine_generate_pssh (map kid ks) (widevine_provider a)
                       (widevine_content_id a) (widevine_pssh_version a)))
          /\ (playready a = true ->
              exists pks,
                comprehension playready_key ks = Ok pks
                /\ is_Ok (playready_generate_pssh pks (playready_la_url a)
                            (playready_algorithm a)
                            (playready_pssh_version a)))
          /\ (exists rules,
                 Forall2 (preset_of ks) (items (preset_usage_rules a)) rules)
          /\ Forall (passes_rule ks) (items (custom_usage_rules a)).
Proof.
  split.
  - intros (w' & Hrun).
    apply main_Exit_inv in Hrun as (_ & [[ks drm] rules] & Hbody).
    apply main_body_Ret_inv in Hbody
      as (Hlevel & Hreq & Hkeys & Hdrm & Hpre & Hcus).
    split; [exact Hlevel|]. split; [exact Hreq|].
    exists ks. split; [now apply parse_keys_Ok_key_of|].
    apply drm_stage_Ret_inv in Hdrm as (dw & dp & _ & Hw & Hp).
    apply preset_stage_run in Hpre as [_ Hpre].
    apply custom_stage_run in Hcus as [_ Hcus].
    repeat split; [| |now exists rules|exact Hcus].
    + intros Hwv. rewrite Hwv in Hw. destruct Hw as (p & -> & _). exact I.
    + intros Hpr. rewrite Hpr in Hp. destruct Hp as (pks & p & Hpks & Hgen & _).
      exists pks. split; [exact Hpks|]. now rewrite Hgen.
  - intros (Hlevel & Hreq & ks & Hkeys & Hw & Hp & (rules & Hpre) & Hcus).
    apply key_of_parse_keys in Hkeys.
    destruct (drm_stage_Ret_intro a ks w Hw Hp) as (drm & w1 & Hdrm).
    exists w1. unfold main. unfold bind at 1.
    rewrite (main_body_after_keys a ks w Hlevel Hreq Hkeys).
    unfold after_keys. unfold bind at 1. rewrite Hdrm.
    unfold bind at 1.
    rewrite (proj2 (preset_stage_run a ks rules w1 w1) (conj eq_refl Hpre)).
    unfold bind at 1.
    rewrite (proj2 (custom_stage_run a ks w1 w1) (conj eq_refl Hcus)).
    reflexivity.
Qed.

Lemma parser_errors_rule_kid_of (P : message -> Prop) (ks : list ContentKey)
    (kid_text msg : string) :
  P (MsgStr msg) -> parser_errors P (rule_kid_of ks kid_text msg).
Proof.
  intros Hm. unfold rule_kid_of.
  destruct (UUID kid_text); [|auto with perr].
  destruct (negb _); auto with perr.
Qed.

Lemma parser_errors_drm_stage (P : message -> Prop) (a : Args)
    (ks : list ContentKey) :
  parser_errors P (drm_stage a ks).
Proof.
  unfold drm_stage, widevine_stage, playready_stage, call_widevine,
    call_playready.
  apply parser_errors_bind; [|intros drm].
  - destruct (widevine a); [|auto with perr].
    apply parser_errors_bind; [auto with perr|].
    intros pssh. apply parser_errors_for_each. auto with perr.
  - destruct (playready a); [|auto with perr].
    apply parser_errors_bind; [auto with perr|]. intros pks.
    apply parser_errors_bind; [auto with perr|].
    intros pssh. apply parser_errors_for_each. auto with perr.
Qed.


End WholeRuns.

(** ** The further properties on concrete command lines *)

(** X1 on the two sample keys. *)
Lemma parse_keys_accepts_witness :
  @parse_keys Sample.externals [Sample.key1; Sample.key2] = Ok Sample.keys12
  /\ Forall2 (@key_of Sample.externals) [Sample.key1; Sample.key2]
       Sample.keys12.
Proof.
  assert (Hrun : @parse_keys Sample.externals [Sample.key1; Sample.key2]
                 = Ok Sample.keys12) by (vm_compute; reflexivity).
  split; [exact Hrun|].
  exact (proj1 (@parse_keys_accepts Sample.externals _ _) Hrun).
Defined.

(** X2 on the two sample keys. *)
Lemma parsed_cek_is_24_bytes_witness :
  @parse_keys Sample.externals [Sample.key1; Sample.key2] = Ok Sample.keys12
  /\ Forall (fun c => length (cek c) = 24) Sample.keys12.
Proof.
  assert (Hrun : @parse_keys Sample.externals [Sample.key1; Sample.key2]
                 = Ok Sample.keys12) by (vm_compute; reflexivity).
  split; [exact Hrun|].
  exact (@parsed_cek_is_24_bytes Sample.externals _ _ Hrun).
Defined.

(** X3 on the first sample key. *)
Lemma playready_key_is_the_cek_text_witness :
  @playready_key Sample.externals
    (mkContentKey Sample.u1 (Py.bytes_of_string "wvr2bihSzExKdR8KKpQf2w=="))
  = Ok (Sample.u1, Py.bytes_of_string Sample.cek1).
Proof.
  refine (@playready_key_is_the_cek_text Sample.externals Sample.key1
            Sample.kid1 Sample.cek1
            (mkContentKey Sample.u1
               (Py.bytes_of_string "wvr2bihSzExKdR8KKpQf2w=="))
            _ eq_refl _).
  - vm_compute. reflexivity.
  - intros raw Hraw. vm_compute in Hraw. inversion Hraw; subst raw.
    vm_compute. reflexivity.
Defined.

(** X4 on the rule of the docstring: it passes, and records nothing. *)
Lemma custom_filters_accepts_witness :
  @custom_filters (Py.split "," Sample.docstring_rule) ∅ = Ok ∅
  /\ Forall passes_filter (Py.split "," Sample.docstring_rule).
Proof.
  assert (Hrun : @custom_filters (Py.split "," Sample.docstring_rule) ∅
                 = Ok ∅) by (vm_compute; reflexivity).
  split; [exact Hrun|].
  exact (proj1 (proj1 (custom_filters_accepts _)) (ex_intro _ ∅ Hrun)).
Defined.

Lemma run_widevine_preset :
  @main_body Sample.externals
    (Sample.cmd [Sample.key1; Sample.key2] true false None None
       (Some [(Sample.kid1, "video_hd"); (Sample.kid1, "audio")]))
    Sample.w0
  = (Ret (Sample.keys12,
          @entries WIDEVINE_SYSTEM_ID (Py.bytes_of_string "widevine pssh")
            Sample.keys12,
          [HDVideoUsageRule Sample.u1; AudioUsageRule Sample.u1]),
     mkWorld [WidevineGenerate [Sample.u1; Sample.u2] None None 1] []).
Proof. vm_compute. reflexivity. Qed.

(** X5 on a run with two keys and Widevine: two entries, on the two
    keys. *)
Lemma drm_entries_refer_to_keys_witness :
  Forall (fun d => drm_kid d ∈ map kid Sample.keys12)
    (@entries WIDEVINE_SYSTEM_ID (Py.bytes_of_string "widevine pssh")
       Sample.keys12)
  /\ length (@entries WIDEVINE_SYSTEM_ID (Py.bytes_of_string "widevine pssh")
               Sample.keys12) = 2.
Proof.
  pose proof (@drm_entries_refer_to_keys Sample.externals _ _ _ _ _ _
                run_widevine_preset) as (_ & Hkids & Hlen).
  split; [exact Hkids | exact Hlen].
Defined.

(** X6 on the same run: the two preset options, both on the first key, give
    two rules in their order. *)
Lemma usage_rules_are_the_presets_witness :
  Forall2 (@preset_of Sample.externals Sample.keys12)
    [(Sample.kid1, "video_hd"); (Sample.kid1, "audio")]
    [HDVideoUsageRule Sample.u1; AudioUsageRule Sample.u1].
Proof.
  exact (proj1 (@usage_rules_are_the_presets Sample.externals _ _ _ _ _ _
                  run_widevine_preset)).
Defined.

(** X7 on a content key that is no hexadecimal text: the rules are not
    looked at. *)
Lemma refused_key_is_a_parser_error_witness :
  @main Sample.externals
    (Sample.cmd [Sample.key1; Sample.key_not_hex] true false None
       (Some [(Sample.kid3, "audio")]) (Some [(Sample.kid3, "video_4k")]))
    Sample.w0
  = (ParserError (MsgExn BinasciiError), Sample.w0).
Proof.
  refine (@refused_key_is_a_parser_error Sample.externals
            (Sample.cmd [Sample.key1; Sample.key_not_hex] true false None
               (Some [(Sample.kid3, "audio")])
               (Some [(Sample.kid3, "video_4k")]))
            Sample.w0 BinasciiError eq_refl _ _).
  - discriminate.
  - vm_compute. reflexivity.
Defined.

(** X8 where the generators raise: Widevine's exception ends the run, and
    PlayReady's does when Widevine is off. *)
Lemma generator_failure_is_uncaught_witness :
  @main Sample.failing_generators
    (Sample.cmd [Sample.key1; Sample.key2] true true (Some Sample.la_url)
       None None)
    Sample.w0
  = (Raised (Exception_ "generator failed"),
     mkWorld [WidevineGenerate [Sample.u1; Sample.u2] None None 1] [])
  /\ @main Sample.failing_generators
       (Sample.cmd [Sample.key1; Sample.key2] false true (Some Sample.la_url)
          None None)
       Sample.w0
     = (Raised (Exception_ "generator failed"),
        mkWorld
          [PlayreadyGenerate
             [(Sample.u1, Py.bytes_of_string Sample.cek1);
              (Sample.u2, Py.bytes_of_string Sample.cek2)]
             (Some Sample.la_url) "AESCTR" 1] []).
Proof.
  assert (Hkeys : @parse_keys Sample.failing_generators
                    [Sample.key1; Sample.key2] = Ok Sample.keys12)
    by (vm_compute; reflexivity).
  split.
  - refine (proj1 (@generator_failure_is_uncaught Sample.failing_generators
                     (Sample.cmd [Sample.key1; Sample.key2] true true
                        (Some Sample.la_url) None None)
                     Sample.w0 Sample.keys12 (Exception_ "generator failed")
                     eq_refl _ Hkeys) eq_refl eq_refl).
    discriminate.
  - refine (proj2 (@generator_failure_is_uncaught Sample.failing_generators
                     (Sample.cmd [Sample.key1; Sample.key2] false true
                        (Some Sample.la_url) None None)
                     Sample.w0 Sample.keys12 (Exception_ "generator failed")
                     eq_refl _ Hkeys)
              [(Sample.u1, Py.bytes_of_string Sample.cek1);
               (Sample.u2, Py.bytes_of_string Sample.cek2)]
              eq_refl eq_refl _ eq_refl).
    + discriminate.
    + vm_compute. reflexivity.
Defined.

Lemma run_exits_0 :
  @main Sample.externals
    (Sample.cmd [Sample.key1; Sample.key2] true false None
       (Some [(Sample.kid2, Sample.docstring_rule)])
       (Some [(Sample.kid1, "video_hd")]))
    Sample.w0
  = (Exit 0, mkWorld [WidevineGenerate [Sample.u1; Sample.u2] None None 1] []).
Proof. vm_compute. reflexivity. Qed.

(** X9 on a run that exits with status 0: its custom rule passes. *)
Lemma main_exits_0_iff_witness :
  exists ks,
    Forall2 (@key_of Sample.externals) [Sample.key1; Sample.key2] ks
    /\ Forall (@passes_rule Sample.externals ks)
         [(Sample.kid2, Sample.docstring_rule)].
Proof.
  destruct (proj1 (@main_exits_0_iff Sample.externals _ _)
              (ex_intro _ _ run_exits_0))
    as (_ & _ & ks & Hkeys & _ & _ & _ & Hcus).
  exists ks. split; [exact Hkeys | exact Hcus].
Defined.

Lemma run_unknown_preset :
  @main Sample.externals
    (Sample.cmd [Sample.key1] false false None None
       (Some [(Sample.kid1, "videouhd2")]))
    Sample.w0
  = (ParserError
       (MsgStr "Invalid preset rule. Allowed values are: audio, video, video_sd, video_hd, video_uhd1, video_uhd2"),
     Sample.w0).
Proof. vm_compute. reflexivity. Qed.


(** ** The generator calls of any run *)

Lemma silent_ret {A : Type} (x : A) : silent (ret x).
Proof. intros w. reflexivity. Qed.

Lemma silent_raise {A : Type} (e : exn) : silent (@raise A e).
Proof. intros w. reflexivity. Qed.

Lemma silent_parser_error {A : Type} (m : message) :
  silent (@parser_error A m).
Proof. intros w. reflexivity. Qed.

Lemma silent_exit (n : Z) : silent (exit n).
Proof. intros w. reflexivity. Qed.

Lemma silent_lift {A : Type} (r : result A) : silent (lift r).
Proof. destruct r; [apply silent_ret | apply silent_raise]. Qed.

Lemma snd_bind_silent {A B : Type} (c : M A) (k : A -> M B) (w : world) :
  (forall x, silent (k x)) -> snd (bind c k w) = snd (c w).
Proof.
  intros Hk. unfold bind. destruct (c w) as [[x|e|m|n] w1]; simpl;
    try reflexivity. apply Hk.
Qed.

Lemma silent_bind {A B : Type} (c : M A) (k : A -> M B) :
  silent c -> (forall x, silent (k x)) -> silent (bind c k).
Proof. intros Hc Hk w. rewrite snd_bind_silent by exact Hk. apply Hc. Qed.

Lemma silent_for_each {A S : Type} (body : S -> A -> M S) (l : list A) :
  (forall s x, silent (body s x)) -> forall s, silent (for_each body l s).
Proof.
  intros Hbody. induction l as [|x l IH]; intros s; simpl.
  - apply silent_ret.
  - apply silent_bind; [apply Hbody | exact IH].
Qed.

Create HintDb silent.
#[local] Hint Resolve silent_ret silent_raise silent_parser_error silent_exit
  silent_lift silent_bind silent_for_each : silent.

Section Calls.

Context `{Externals}.

Lemma silent_rule_kid_of (ks : list ContentKey) (kid_text msg : string) :
  silent (rule_kid_of ks kid_text msg).
Proof.
  unfold rule_kid_of. destruct (UUID kid_text); [|auto with silent].
  destruct (negb _); auto with silent.
Qed.

Lemma silent_preset_stage (a : Args) (ks : list ContentKey)
    (rules : list UsageRule) :
  silent (preset_stage a ks rules).
Proof.
  unfold preset_stage. destruct (truthy _); [|auto with silent].
  apply silent_for_each. intros s rule. unfold preset_rule.
  apply silent_bind; [apply silent_rule_kid_of|].
  intros u. repeat case_decide; auto with silent.
Qed.

Lemma silent_custom_stage (a : Args) (ks : list ContentKey) :
  silent (custom_stage a ks).
Proof.
  unfold custom_stage. destruct (truthy _); [|auto with silent].
  apply silent_for_each. intros [] rule.
  apply silent_bind; [|auto with silent].
  unfold custom_rule. apply silent_bind; [apply silent_rule_kid_of|].
  auto with silent.
Qed.

Lemma snd_after_keys (a : Args) (ks : list ContentKey) (w : world) :
  snd (after_keys a ks w) = snd (drm_stage a ks w).
Proof.
  unfold after_keys. apply snd_bind_silent. intros drm.
  apply silent_bind; [apply silent_preset_stage|]. intros rules.
  apply silent_bind; [apply silent_custom_stage|]. auto with silent.
Qed.

Lemma snd_main (a : Args) (w : world) :
  snd (main a w) = snd (main_body a w).
Proof.
  unfold main. apply snd_bind_silent. intros st.
  apply silent_bind; [apply silent_exit|]. intros [].
Qed.

Lemma snd_main_body (a : Args) (w : world) :
  snd (main_body a w) = w
  \/ exists ks, parse_keys (keys a) = Ok ks
                /\ snd (main_body a w) = snd (drm_stage a ks w).
Proof.
  destruct (Py.checkLevel (log_level a)) eqn:Hlevel.
  2: { left. unfold main_body, bind, set_log_level. now rewrite Hlevel. }
  destruct (playready a && bool_decide (playready_la_url a = None))
    eqn:Hreq.
  { left. unfold main_body, bind, set_log_level, check_required.
    now rewrite Hlevel, Hreq. }
  destruct (parse_keys (keys a)) as [ks|e] eqn:Hkeys.
  2: { left. unfold main_body, bind, set_log_level, check_required,
         keys_stage. now rewrite Hlevel, Hreq, Hkeys. }
  right. exists ks. split; [reflexivity|].
  rewrite (main_body_after_keys a ks w Hlevel); [apply snd_after_keys| |exact Hkeys].
  intros Hp Hurl. rewrite Hp, Hurl in Hreq. discriminate.
Qed.

Lemma drm_stage_world (a : Args) (ks : list ContentKey) (w : world) :
  output (snd (drm_stage a ks w)) = output w
  /\ exists lw lp,
      calls (snd (drm_stage a ks w)) = calls w ++ lw ++ lp
      /\ (lw = []
          \/ (widevine a = true
              /\ lw = [WidevineGenerate (map kid ks) (widevine_provider a)
                         (widevine_content_id a) (widevine_pssh_version a)]))
      /\ (lp = []
          \/ exists pks,
              playready a = true
              /\ comprehension playready_key ks = Ok pks
              /\ lp = [PlayreadyGenerate pks (playready_la_url a)
                         (playready_algorithm a)
                         (playready_pssh_version a)]).
Proof.
  unfold drm_stage, bind. rewrite widevine_stage_run.
  destruct (widevine a) eqn:Hw; cbv zeta.
  - destruct (widevine_generate_pssh _ _ _ _) as [p|e].
    + rewrite playready_stage_run. destruct (playready a) eqn:Hp.
      * destruct (comprehension playready_key ks) as [pks|e] eqn:Hpks.
        -- cbv zeta.
           destruct (playready_generate_pssh _ _ _ _); simpl;
             (split; [reflexivity|]);
             exists [WidevineGenerate (map kid ks) (widevine_provider a)
                       (widevine_content_id a) (widevine_pssh_version a)],
               [PlayreadyGenerate pks (playready_la_url a)
                  (playready_algorithm a) (playready_pssh_version a)];
             (split; [now rewrite <- app_assoc|]);
             (split; [right; now split | right; exists pks; now repeat split]).
        -- simpl. split; [reflexivity|].
           exists [WidevineGenerate (map kid ks) (widevine_provider a)
                  (widevine_content_id a) (widevine_pssh_version a)], [].
        split; [reflexivity|]. split; [right|left]; eauto.
      * simpl. split; [reflexivity|].
        exists [WidevineGenerate (map kid ks) (widevine_provider a)
                  (widevine_content_id a) (widevine_pssh_version a)], [].
        split; [reflexivity|]. split; [right|left]; eauto.
    + simpl. split; [reflexivity|].
      exists [WidevineGenerate (map kid ks) (widevine_provider a)
                  (widevine_content_id a) (widevine_pssh_version a)], [].
        split; [reflexivity|]. split; [right|left]; eauto.
  - rewrite playready_stage_run. destruct (playready a) eqn:Hp.
    + destruct (comprehension playready_key ks) as [pks|e] eqn:Hpks.
      * cbv zeta.
        destruct (playready_generate_pssh _ _ _ _); simpl;
          (split; [reflexivity|]);
          exists [], [PlayreadyGenerate pks (playready_la_url a)
                        (playready_algorithm a) (playready_pssh_version a)];
          (split; [reflexivity|]);
          (split; [now left | right; exists pks; now repeat split]).
      * simpl. split; [reflexivity|].
        exists [], []. split; [now rewrite app_nil_r|]. split; now left.
    + simpl. split; [reflexivity|].
      exists [], []. split; [now rewrite app_nil_r|]. split; now left.
Qed.

(** X11.  Whatever the command line and however the run ends, [main]
    writes no output and the generator calls it makes are: nothing or one
    Widevine call, on the key ids of the parsed keys, then nothing or one
    PlayReady call; a generator is called at most once, never before the
    keys are parsed and never for a system that is not enabled. *)
Theorem generator_calls_of_any_run (a : Args) (w : world) :
  output (snd (main a w)) = output w
  /\ exists l, calls (snd (main a w)) = calls w ++ l /\ generator_calls a l.
Proof.
  rewrite snd_main.
  destruct (snd_main_body a w) as [-> | (ks & Hkeys & ->)].
  { split; [reflexivity|]. exists []. split; [now rewrite app_nil_r|].
    exists [], []. repeat split; now left. }
  destruct (drm_stage_world a ks w) as (Hout & lw & lp & Hcalls & Hlw & Hlp).
  split; [exact Hout|]. exists (lw ++ lp). split; [exact Hcalls|].
  exists lw, lp. split; [reflexivity|]. split.
  - destruct Hlw as [-> | [Hw ->]]; [now left|]. right. now exists ks.
  - destruct Hlp as [-> | (pks & Hp & Hpks & ->)]; [now left|].
    right. now exists ks, pks.
Qed.

End Calls.
